(** * NoteSmith: the refine operation of the Obsidian plugin (main.ts)

    A shallow embedding of [RefinerPlugin.refineNote], [callOpenAI] and
    [callMistral] together with the fragment of JavaScript they rely on:
    strings as sequences of UTF-16 code units, [String.prototype.trim],
    JSON values, truthiness, [||], member access and optional chaining,
    and [try]/[catch]/[finally] over a small state-and-exception monad. *)

From Stdlib Require Import String Ascii NArith List Bool Lia PrimFloat DecimalString.
From stdpp Require Import base option list gmap.
Import ListNotations.

Set Warnings "-register-all,-inexact-float".
Set Default Proof Using "Type".

Local Open Scope N_scope.
Local Open Scope list_scope.

(** ** JavaScript strings *)

Module JsString.

(** A string value is a finite sequence of 16-bit code units. *)
Abbreviation t := (list N).

(** A source literal; every literal of main.ts is plain ASCII. *)
Definition lit (s : string) : t :=
  List.map N_of_ascii (list_ascii_of_string s).

(** The line feed a template literal holds at a line break, and the
    escape [\n]. *)
Definition nl : t := [10].

(** WhiteSpace and LineTerminator code points of ECMAScript: what
    [trim] strips at both ends. *)
Definition is_space (c : N) : bool :=
  (c =? 9) || (c =? 10) || (c =? 11) || (c =? 12) || (c =? 13) || (c =? 32)
  || (c =? 160) || (c =? 5760) || ((8192 <=? c) && (c <=? 8202))
  || (c =? 8232) || (c =? 8233) || (c =? 8239) || (c =? 8287)
  || (c =? 12288) || (c =? 65279).

Fixpoint trimStart (s : t) : t :=
  match s with
  | c :: s' => if is_space c then trimStart s' else s
  | [] => []
  end.

Definition trimEnd (s : t) : t := rev (trimStart (rev s)).

(** [s.trim()] *)
Definition trim (s : t) : t := trimEnd (trimStart s).

(** A string is truthy when it is not empty. *)
Definition nonempty (s : t) : bool :=
  match s with [] => false | _ :: _ => true end.

Fixpoint startsWith (s p : t) {struct p} : bool :=
  match p, s with
  | [], _ => true
  | _ :: _, [] => false
  | a :: p', b :: s' => (a =? b) && startsWith s' p'
  end.

(** [s.includes(p)] *)
Fixpoint includes (s p : t) : bool :=
  startsWith s p ||
  match s with
  | [] => false
  | _ :: s' => includes s' p
  end.

Fixpoint of_uint (d : Decimal.uint) : t :=
  match d with
  | Decimal.Nil => []
  | Decimal.D0 d => 48 :: of_uint d
  | Decimal.D1 d => 49 :: of_uint d
  | Decimal.D2 d => 50 :: of_uint d
  | Decimal.D3 d => 51 :: of_uint d
  | Decimal.D4 d => 52 :: of_uint d
  | Decimal.D5 d => 53 :: of_uint d
  | Decimal.D6 d => 54 :: of_uint d
  | Decimal.D7 d => 55 :: of_uint d
  | Decimal.D8 d => 56 :: of_uint d
  | Decimal.D9 d => 57 :: of_uint d
  end.

(** The decimal text a template literal substitutes for a
    non-negative integer such as [res.status]. *)
Definition of_N (n : N) : t := of_uint (N.to_uint n).

End JsString.

Import JsString.

(** ** JavaScript values, as [res.json()] yields them *)

Module JsValue.

Inductive value : Type :=
| VUndefined
| VNull
| VBool (b : bool)
| VNumber (x : float)
| VString (s : JsString.t)
| VArray (items : list value)
| VObject (props : list (JsString.t * value)).

(** What a [throw] or a rejected promise carries. *)
Inductive exn : Type :=
| Error (message : JsString.t)
| TypeError (message : JsString.t)
| SyntaxError (message : JsString.t)
| HostError (message : JsString.t).

Inductive outcome (A : Type) : Type :=
| Return (a : A)
| Throw (e : exn).
Arguments Return {A} a.
Arguments Throw {A} e.

(** ToBoolean *)
Definition truthy (v : value) : bool :=
  match v with
  | VUndefined | VNull => false
  | VBool b => b
  | VNumber x => negb (is_zero x || is_nan x)
  | VString s => nonempty s
  | VArray _ | VObject _ => true
  end.

(** [a || b] *)
Definition or (a b : value) : value := if truthy a then a else b.

Definition nullish (v : value) : bool :=
  match v with
  | VUndefined | VNull => true
  | _ => false
  end.

(** A member is named ([.choices]) or indexed ([[0]]). *)
Inductive key : Type :=
| Name (name : JsString.t)
| Index (i : nat).

Definition key_text (k : key) : JsString.t :=
  match k with
  | Name name => name
  | Index i => of_N (N.of_nat i)
  end.

Fixpoint assoc (name : JsString.t) (props : list (JsString.t * value)) : value :=
  match props with
  | [] => VUndefined
  | (k, v) :: rest => if decide (k = name) then v else assoc name rest
  end.

(** [v[k]] for [v] neither null nor undefined. Objects hold one entry
    per own property. A [Name] stands for an identifier such as those
    main.ts reads ([choices], [message], [content], [response]): not
    an index, and defined on no built-in prototype, so on an array, a
    string, a number or a boolean it is undefined. An index reads an
    array element or a one-unit substring. *)
Definition get (v : value) (k : key) : value :=
  match v, k with
  | VObject props, _ => assoc (key_text k) props
  | VArray items, Index i => nth i items VUndefined
  | VString s, Index i =>
      match nth_error s i with
      | Some c => VString [c]
      | None => VUndefined
      end
  | _, _ => VUndefined
  end.

(** [v.k]: a TypeError on null and undefined. *)
Definition member (v : value) (k : key) : outcome value :=
  if nullish v
  then Throw (TypeError (lit "Cannot read properties of null or undefined"))
  else Return (get v k).

(** [v?.k] *)
Definition opt_member (v : value) (k : key) : value :=
  if nullish v then VUndefined else get v k.

End JsValue.

Import JsValue.

(** ** The host: vault, user interface, console and network *)

(** [TFile]: the vault path identifies the document; [name] is what
    the success notice shows. *)
Record TFile : Type := { path : JsString.t; name : JsString.t }.

(** The request body is [JSON.stringify] of a JavaScript object; the
    object is kept as it is handed over. *)
Inductive payload : Type :=
| JSON_stringify (v : value).

(** The second argument of [fetch]. *)
Record RequestInit : Type := {
  method : JsString.t;
  headers : list (JsString.t * JsString.t);
  body : payload
}.

(** What a resolved [fetch] hands back: the status line and what
    reading the body as text or as JSON gives. *)
Record Response : Type := {
  status : N;
  statusText : JsString.t;
  text : outcome JsString.t;
  json : outcome value
}.

(** [res.ok]: the status is in the range 200-299. *)
Definition ok (res : Response) : bool :=
  (200 <=? status res) && (status res <=? 299).

(** Everything the plugin can change or emit. *)
Record World : Type := {
  vault : gmap JsString.t JsString.t;      (* path to document body *)
  modals : list bool;                      (* one flag per modal: is it open *)
  notices : list JsString.t;               (* [new Notice(..)], oldest first *)
  console : list (JsString.t * exn);       (* [console.error(label, err)] *)
  network : list (JsString.t * RequestInit) (* requests sent by [fetch] *)
}.

(** How the surroundings answer during one run of [refineNote]: each
    of [vault.read], [fetch] and [vault.modify] is reached at most
    once. [modify_foreign] is what the vault does with data that is not
    a string, which its signature [data: string] leaves open. *)
Record Env : Type := {
  read_io : option exn;
  fetch_io : outcome Response;
  modify_io : option exn;
  modify_foreign : value -> outcome JsString.t
}.

(** [RefinerSettings] *)
Record RefinerSettings : Type := {
  apiKey : JsString.t;
  model : JsString.t;
  apiUrl : JsString.t;
  tags : JsString.t;
  additionalInstructions : JsString.t;
  useOllama : bool
}.

Definition DEFAULT_SETTINGS : RefinerSettings :=
  {| apiKey := [];
     model := lit "gpt-4o";
     apiUrl := lit "https://api.openai.com/v1/chat/completions";
     tags := [];
     additionalInstructions := [];
     useOllama := false |}.

Definition set_vault (f : gmap JsString.t JsString.t -> gmap JsString.t JsString.t) (w : World) : World :=
  {| vault := f (vault w); modals := modals w; notices := notices w;
     console := console w; network := network w |}.

Definition set_modals (f : list bool -> list bool) (w : World) : World :=
  {| vault := vault w; modals := f (modals w); notices := notices w;
     console := console w; network := network w |}.

Definition add_notice (msg : JsString.t) (w : World) : World :=
  {| vault := vault w; modals := modals w; notices := notices w ++ [msg];
     console := console w; network := network w |}.

Definition add_console (label : JsString.t) (err : exn) (w : World) : World :=
  {| vault := vault w; modals := modals w; notices := notices w;
     console := console w ++ [(label, err)]; network := network w |}.

Definition add_request (input : JsString.t) (init : RequestInit) (w : World) : World :=
  {| vault := vault w; modals := modals w; notices := notices w;
     console := console w; network := network w ++ [(input, init)] |}.

(** ** Computations: state passing with exceptions *)

Definition M (A : Type) : Type := World -> World * outcome A.

Definition ret {A} (a : A) : M A := fun w => (w, Return a).

Definition throw {A} (e : exn) : M A := fun w => (w, Throw e).

Definition bind {A B} (c : M A) (k : A -> M B) : M B :=
  fun w =>
    match c w with
    | (w', Return a) => k a w'
    | (w', Throw e) => (w', Throw e)
    end.

(** An expression that may throw, evaluated in place. *)
Definition lift {A} (o : outcome A) : M A := fun w => (w, o).

Declare Scope js_scope.
Delimit Scope js_scope with js.
Notation "x <- c ;; k" := (bind c (fun x => k))
  (at level 100, c at next level, right associativity) : js_scope.
Notation "c ;; k" := (bind c (fun _ => k))
  (at level 100, right associativity) : js_scope.
Local Open Scope js_scope.

(** [try { body } catch (err) { handler }] *)
Definition try_catch {A} (body : M A) (handler : exn -> M A) : M A :=
  fun w =>
    match body w with
    | (w', Return a) => (w', Return a)
    | (w', Throw e) => handler e w'
    end.

(** [try { body } finally { final }]: the result of [body] stands
    unless [final] throws. *)
Definition try_finally {A} (body : M A) (final : M unit) : M A :=
  fun w =>
    match body w with
    | (w', r) =>
        match final w' with
        | (w'', Return _) => (w'', r)
        | (w'', Throw e) => (w'', Throw e)
        end
    end.

(** ** The plugin *)

Section RefinerPlugin.

Variable env : Env.
Variable settings : RefinerSettings.

(** *** Host operations *)

(** [this.app.vault.read(file)] *)
Definition vault_read (file : TFile) : M JsString.t :=
  fun w =>
    match read_io env with
    | Some e => (w, Throw e)
    | None =>
        match vault w !! path file with
        | Some original => (w, Return original)
        | None => (w, Throw (HostError (lit "ENOENT: no such file")))
        end
    end.

(** [this.app.vault.modify(file, data)] *)
Definition vault_modify (file : TFile) (data : value) : M unit :=
  fun w =>
    match modify_io env with
    | Some e => (w, Throw e)
    | None =>
        match data with
        | VString s => (set_vault <[path file := s]> w, Return tt)
        | _ =>
            match modify_foreign env data with
            | Return s => (set_vault <[path file := s]> w, Return tt)
            | Throw e => (w, Throw e)
            end
        end
    end.

(** [fetch(input, init)]: the request leaves, then the promise
    settles. *)
Definition fetch (input : JsString.t) (init : RequestInit) : M Response :=
  fun w => (add_request input init w, fetch_io env).

(** [res.text()] and [res.json()] *)
Definition res_text (res : Response) : M JsString.t := lift (text res).
Definition res_json (res : Response) : M value := lift (json res).

(** [console.error(label, err)] *)
Definition console_error (label : JsString.t) (err : exn) : M unit :=
  fun w => (add_console label err w, Return tt).

(** [new Notice(msg)] *)
Definition new_Notice (msg : JsString.t) : M unit :=
  fun w => (add_notice msg w, Return tt).

(** [new LoadingModal(this.app)]: a fresh modal, not yet open. *)
Definition new_LoadingModal : M nat :=
  fun w => (set_modals (fun ms => ms ++ [false]) w, Return (length (modals w))).

(** [spinner.open()] and [spinner.close()] *)
Definition modal_open (spinner : nat) : M unit :=
  fun w => (set_modals <[spinner := true]> w, Return tt).
Definition modal_close (spinner : nat) : M unit :=
  fun w => (set_modals <[spinner := false]> w, Return tt).

(** *** The prompt (lines 317-339 of main.ts) *)

Definition tagInstruction : JsString.t :=
  if nonempty (trim (tags settings))
  then lit "If any content fits the following tags, add them where appropriate (e.g. headers, checklists). Doesn't just have to be for headers, can be at any point in the document: "
       ++ tags settings
  else [].

Definition baseInstructions : JsString.t :=
  lit "You are a helpful assistant that formats and improves Markdown notes for use in Obsidian." ++ nl
  ++ nl
  ++ lit "Clean up the following note by:" ++ nl
  ++ lit "- Fixing grammar, punctuation, and inconsistent structure" ++ nl
  ++ lit "- Making the content easier to read and logically organized" ++ nl
  ++ lit "- Applying proper Obsidian Markdown formatting:" ++ nl
  ++ lit "  - Use `#`, `##`, `###`, `####` for headings" ++ nl
  ++ lit "  - Format lists using `-` or `1.` consistently" ++ nl
  ++ lit "  - Convert any tasks into `[ ]` or `[x]` checkboxes" ++ nl
  ++ lit "  - Preserve and reformat code blocks, blockquotes, and inline formatting" ++ nl
  ++ lit "  - Don't wrap the whole response in a code block" ++ nl
  ++ lit "  - Avoid `---` at the top (it breaks Obsidian rendering)" ++ nl
  ++ nl
  ++ lit "Keep all important content, but reword or reformat for clarity where helpful.".

(** The template literal of [const prompt], line by line. *)
Definition prompt (original : JsString.t) : JsString.t :=
  baseInstructions ++ nl
  ++ (if nonempty tagInstruction then nl ++ lit "- " ++ tagInstruction else []) ++ nl
  ++ (if nonempty (additionalInstructions settings)
      then nl ++ nl ++ lit "Additional Instructions:" ++ nl ++ additionalInstructions settings
      else []) ++ nl
  ++ nl ++ nl ++ lit "### Note:" ++ nl ++ original.

(** *** The completion calls (lines 360-425) *)

Definition api_error (res : Response) (text : JsString.t) : exn :=
  Error (lit "API Error: " ++ of_N (status res) ++ lit " " ++ statusText res
         ++ lit " - " ++ text).

(** [if (!res.ok) { const text = await res.text(); throw new Error(..) }] *)
Definition check_ok (res : Response) : M unit :=
  if negb (ok res)
  then text <- res_text res ;; throw (api_error res text)
  else ret tt.

Definition user_message (content : JsString.t) : value :=
  VObject [(lit "role", VString (lit "user")); (lit "content", VString content)].

Definition callMistral_try (prompt : JsString.t) : M value :=
  res <- fetch (apiUrl settings)
    {| method := lit "POST";
       headers := [(lit "Content-Type", lit "application/json")];
       body := JSON_stringify (VObject
         [(lit "model", VString (model settings));
          (lit "messages", VArray [user_message prompt]);
          (lit "max_tokens", VNumber 512);
          (lit "temperature", VNumber 0.3)]) |} ;;
  check_ok res ;;
  json <- res_json res ;;
  response <- lift (member json (Name (lit "response"))) ;;
  ret (or response VNull).

Definition callMistral (prompt : JsString.t) : M value :=
  try_catch (callMistral_try prompt)
    (fun err => console_error (lit "Mistral API Error:") err ;; ret VNull).

Definition callOpenAI_try (content : JsString.t) : M value :=
  res <- fetch (apiUrl settings)
    {| method := lit "POST";
       headers := [(lit "Content-Type", lit "application/json");
                   (lit "Authorization", lit "Bearer " ++ apiKey settings)];
       body := JSON_stringify (VObject
         [(lit "model", VString (model settings));
          (lit "messages", VArray [user_message content]);
          (lit "temperature", VNumber 0.3)]) |} ;;
  check_ok res ;;
  json <- res_json res ;;
  choices <- lift (member json (Name (lit "choices"))) ;;
  ret (or (opt_member (opt_member (opt_member choices (Index 0))
                         (Name (lit "message"))) (Name (lit "content")))
          VNull).

Definition callOpenAI (content : JsString.t) : M value :=
  try_catch (callOpenAI_try content)
    (fun err => console_error (lit "Refiner Plugin Error:") err ;; ret VNull).

(** *** The refine operation (lines 310-358) *)

(** [this.settings.useOllama ? await this.callMistral(prompt)
    : await this.callOpenAI(prompt)] (lines 342-344): the completion
    client as [refineNote] reaches it. *)
Definition complete (prompt : JsString.t) : M value :=
  if useOllama settings then callMistral prompt else callOpenAI prompt.

Definition refineNote_try (file : TFile) : M unit :=
  original <- vault_read file ;;
  refined <- complete (prompt original) ;;
  if truthy refined
  then vault_modify file refined ;;
       new_Notice (lit "Note refined: " ++ name file)
  else new_Notice (lit "Failed to refine the note.").

Definition refineNote_catch (err : exn) : M unit :=
  console_error (lit "Refiner Error:") err ;;
  new_Notice (lit "An error occurred while refining the note.").

Definition refineNote (file : TFile) : M unit :=
  spinner <- new_LoadingModal ;;
  modal_open spinner ;;
  try_finally (try_catch (refineNote_try file) refineNote_catch)
              (modal_close spinner).

End RefinerPlugin.

Arguments lit : simpl never.

(** ** Vocabulary of the specification *)

(** [p] occurs in [s] as a contiguous run of code units. *)
Definition infix (p s : JsString.t) : Prop :=
  exists before after, s = before ++ p ++ after.

Definition is_Return {A} (o : outcome A) : Prop :=
  match o with Return _ => True | Throw _ => False end.

(** The tag-annotation clause that refers to the tag text [listed]. *)
Definition tag_clause_of (listed : JsString.t) : JsString.t :=
  nl ++ lit "- "
  ++ lit "If any content fits the following tags, add them where appropriate (e.g. headers, checklists). Doesn't just have to be for headers, can be at any point in the document: "
  ++ listed.

(** The additional-instructions marker and the clause under it. *)
Definition extra_marker : JsString.t :=
  nl ++ nl ++ lit "Additional Instructions:" ++ nl.

Definition extra_clause_of (instructions : JsString.t) : JsString.t :=
  extra_marker ++ instructions.

(** The document marker. *)
Definition note_marker : JsString.t :=
  nl ++ nl ++ lit "### Note:" ++ nl.

(** The prompt as the specification lays it out: base rules, a line
    for the tag clause, a line for the extra instructions, the marker
    and the body. *)
Definition prompt_layout (tag_clause extra_clause body : JsString.t) : JsString.t :=
  baseInstructions ++ nl ++ tag_clause ++ nl ++ extra_clause ++ nl ++ note_marker ++ body.

(** The request each provider shape sends. *)
Definition standard_request (st : RefinerSettings) (prompt : JsString.t) : JsString.t * RequestInit :=
  (apiUrl st,
   {| method := lit "POST";
      headers := [(lit "Content-Type", lit "application/json");
                  (lit "Authorization", lit "Bearer " ++ apiKey st)];
      body := JSON_stringify (VObject
        [(lit "model", VString (model st));
         (lit "messages", VArray [VObject [(lit "role", VString (lit "user"));
                                           (lit "content", VString prompt)]]);
         (lit "temperature", VNumber 0.3)]) |}).

Definition alternate_request (st : RefinerSettings) (prompt : JsString.t) : JsString.t * RequestInit :=
  (apiUrl st,
   {| method := lit "POST";
      headers := [(lit "Content-Type", lit "application/json")];
      body := JSON_stringify (VObject
        [(lit "model", VString (model st));
         (lit "messages", VArray [VObject [(lit "role", VString (lit "user"));
                                           (lit "content", VString prompt)]]);
         (lit "max_tokens", VNumber 512);
         (lit "temperature", VNumber 0.3)]) |}).

(** The first choice's message content of a standard-shape body, and
    the top-level response of an alternate-shape body; [VUndefined]
    when absent. *)
Definition first_choice_content (json : value) : value :=
  opt_member (opt_member (opt_member (get json (Name (lit "choices"))) (Index 0))
                (Name (lit "message"))) (Name (lit "content")).

Definition response_field (json : value) : value :=
  get json (Name (lit "response")).

(** The world once the loading modal of this run is open. *)
Definition running (w : World) : World :=
  set_modals (fun ms => ms ++ [true]) w.

(** The clause each optional setting contributes to the prompt. *)
Definition tag_clause (st : RefinerSettings) : JsString.t :=
  if nonempty (trim (tags st)) then tag_clause_of (tags st) else [].

Definition extra_clause (st : RefinerSettings) : JsString.t :=
  if nonempty (additionalInstructions st)
  then extra_clause_of (additionalInstructions st)
  else [].

(** What depends on the provider shape: the request, the field the
    text is taken from, and the label of the console entry. *)
Definition request_of (st : RefinerSettings) (prompt : JsString.t) : JsString.t * RequestInit :=
  if useOllama st then alternate_request st prompt else standard_request st prompt.

Definition text_field (st : RefinerSettings) (json : value) : value :=
  if useOllama st then response_field json else first_choice_content json.

Definition client_label (st : RefinerSettings) : JsString.t :=
  if useOllama st then lit "Mistral API Error:" else lit "Refiner Plugin Error:".

(** The world once a request has left. *)
Definition send (request : JsString.t * RequestInit) (w : World) : World :=
  add_request request.1 request.2 w.

(** The try block of the selected completion call. *)
Definition complete_try (env : Env) (st : RefinerSettings) (prompt : JsString.t) : M value :=
  if useOllama st then callMistral_try env st prompt else callOpenAI_try env st prompt.

(** The three notices of [refineNote]. *)
Definition notice_refined (file : TFile) : JsString.t := lit "Note refined: " ++ name file.
Definition notice_failed : JsString.t := lit "Failed to refine the note.".
Definition notice_error : JsString.t := lit "An error occurred while refining the note.".

(** The plugin leaves the vault, the modals and the notices of [w] as
    they are in [w']. *)
Definition quiet (w w' : World) : Prop :=
  vault w' = vault w /\ modals w' = modals w /\ notices w' = notices w.

(** The ways the guarded block of [refineNote] ends, started in [w0]:
    the read fails; the client returns a falsy value; the write fails;
    the write is done. Each ends with one notice. *)
Inductive refine_run (env : Env) (st : RefinerSettings) (file : TFile) (w0 : World)
  : World -> Prop :=
| run_unreadable e :
    vault_read env file w0 = (w0, Throw e) ->
    refine_run env st file w0
      (add_notice notice_error (add_console (lit "Refiner Error:") e w0))
| run_absent original w1 r :
    vault_read env file w0 = (w0, Return original) ->
    complete env st (prompt st original) w0 = (w1, Return r) ->
    truthy r = false ->
    refine_run env st file w0 (add_notice notice_failed w1)
| run_unwritable original w1 r e :
    vault_read env file w0 = (w0, Return original) ->
    complete env st (prompt st original) w0 = (w1, Return r) ->
    truthy r = true ->
    vault_modify env file r w1 = (w1, Throw e) ->
    refine_run env st file w0
      (add_notice notice_error (add_console (lit "Refiner Error:") e w1))
| run_written original w1 r text :
    vault_read env file w0 = (w0, Return original) ->
    complete env st (prompt st original) w0 = (w1, Return r) ->
    truthy r = true ->
    vault_modify env file r w1 = (set_vault <[path file := text]> w1, Return tt) ->
    (forall s, r = VString s -> text = s) ->
    refine_run env st file w0
      (add_notice (notice_refined file) (set_vault <[path file := text]> w1)).

(** ** Sample inputs *)

Definition sample_settings : RefinerSettings :=
  {| apiKey := lit "k"; model := lit "m"; apiUrl := lit "https://x/y";
     tags := lit "#todo"; additionalInstructions := []; useOllama := false |}.

(** As [sample_settings], the tag text stored with a leading blank. *)
Definition padded_tags_settings : RefinerSettings :=
  {| apiKey := lit "k"; model := lit "m"; apiUrl := lit "https://x/y";
     tags := lit " #todo"; additionalInstructions := []; useOllama := false |}.

(** As [sample_settings], the extra instructions stored as two blanks. *)
Definition blank_extra_settings : RefinerSettings :=
  {| apiKey := lit "k"; model := lit "m"; apiUrl := lit "https://x/y";
     tags := lit "#todo"; additionalInstructions := lit "  "; useOllama := false |}.

(** As [sample_settings], the tag text stored as white space only. *)
Definition blank_tags_settings : RefinerSettings :=
  {| apiKey := lit "k"; model := lit "m"; apiUrl := lit "https://x/y";
     tags := [32; 9; 160]; additionalInstructions := []; useOllama := false |}.

Definition sample_body : JsString.t :=
  lit "buy milk" ++ nl ++ lit "call mom".

(** As [sample_settings], with the alternate provider selected. *)
Definition ollama_settings : RefinerSettings :=
  {| apiKey := lit "k"; model := lit "m"; apiUrl := lit "https://x/y";
     tags := lit "#todo"; additionalInstructions := []; useOllama := true |}.

Definition sample_file : TFile := {| path := lit "notes/a.md"; name := lit "a.md" |}.

Definition sample_world : World :=
  {| vault := {[ lit "notes/a.md" := sample_body ]};
     modals := []; notices := []; console := []; network := [] |}.

(** A name between double quotes, for the text of a JSON body. *)
Definition quoted (s : string) : JsString.t := [34] ++ lit s ++ [34].

(** A response whose body is the JSON text [raw], parsed to [v]. *)
Definition json_response (raw : JsString.t) (v : value) : Response :=
  {| status := 200; statusText := lit "OK"; text := Return raw; json := Return v |}.

(** A response whose body is plain text, not JSON. *)
Definition text_response (code : N) (reason raw : JsString.t) : Response :=
  {| status := code; statusText := reason; text := Return raw;
     json := Throw (SyntaxError (lit "Unexpected token in JSON")) |}.

(** The standard-shape success body with content [X]. *)
Definition chat_X : Response :=
  json_response
    (lit "{" ++ quoted "choices" ++ lit ":[{" ++ quoted "message" ++ lit ":{"
     ++ quoted "content" ++ lit ":" ++ quoted "X" ++ lit "}}]}")
    (VObject [(lit "choices",
      VArray [VObject [(lit "message", VObject [(lit "content", VString (lit "X"))])]])]).

(** A standard-shape body without [choices]. *)
Definition chat_no_choices : Response :=
  json_response (lit "{}") (VObject []).

(** A standard-shape body whose content is a list of parts. *)
Definition chat_parts : Response :=
  json_response
    (lit "{" ++ quoted "choices" ++ lit ":[{" ++ quoted "message" ++ lit ":{"
     ++ quoted "content" ++ lit ":[{" ++ quoted "type" ++ lit ":" ++ quoted "text"
     ++ lit "," ++ quoted "text" ++ lit ":" ++ quoted "hi" ++ lit "}]}}]}")
    (VObject [(lit "choices",
      VArray [VObject [(lit "message", VObject [(lit "content",
        VArray [VObject [(lit "type", VString (lit "text"));
                         (lit "text", VString (lit "hi"))]])])]])]).

(** The alternate-shape success body with response [Y], and one whose
    response is a number. *)
Definition generate_Y : Response :=
  json_response (lit "{" ++ quoted "response" ++ lit ":" ++ quoted "Y" ++ lit "}")
    (VObject [(lit "response", VString (lit "Y"))]).

Definition generate_42 : Response :=
  json_response (lit "{" ++ quoted "response" ++ lit ":42}")
    (VObject [(lit "response", VNumber 42)]).

Definition unauthorized_401 : Response :=
  text_response 401 (lit "Unauthorized") (lit "invalid api key").

Definition server_error_500 : Response :=
  text_response 500 (lit "Internal Server Error") (lit "server error").

(** Surroundings in which the vault answers and [fetch] settles as
    [settled]; data that is not a string is refused by the vault. *)
Definition env_of (settled : outcome Response) : Env :=
  {| read_io := None; fetch_io := settled; modify_io := None;
     modify_foreign := fun _ => Throw (TypeError (lit "data must be a string")) |}.

(** ** Settings: objects, loading and saving, the settings tab *)

(** [o[k] = v] on an ordinary object: an existing property keeps its
    place, a new one goes last. The list records which own properties
    there are and what they hold; the order in which JavaScript
    enumerates them (integer-like keys first) is not modelled, and
    nothing below depends on it. *)
Fixpoint set_prop (k : JsString.t) (v : value) (props : list (JsString.t * value))
  : list (JsString.t * value) :=
  match props with
  | [] => [(k, v)]
  | (k', v') :: rest =>
      if decide (k' = k) then (k, v) :: rest else (k', v') :: set_prop k v rest
  end.

(** The own enumerable properties [Object.assign] copies from a
    source: those of an object, the elements of an array, the code
    units of a string; none from the other values. *)
Definition own_props (source : value) : list (JsString.t * value) :=
  match source with
  | VObject props => props
  | VArray items => imap (fun i x => (of_N (N.of_nat i), x)) items
  | VString s => imap (fun i c => (of_N (N.of_nat i), VString [c])) s
  | _ => []
  end.

(** Copying the properties of one source as [Object.assign] does on a
    plain target. It assigns with [target[key] = value]; on the key [__proto__] that
    assignment runs the setter inherited from [Object.prototype], which
    creates no property (it swaps the prototype for an object or
    [null] and ignores any other value). An object is modelled by its
    own properties, so that key is passed over. *)
Definition assign_from (target : list (JsString.t * value)) (source : value)
  : list (JsString.t * value) :=
  fold_left (fun o kv => set_prop kv.1 kv.2 o)
            (filter (fun kv => kv.1 <> lit "__proto__") (own_props source)) target.

(** [Object.assign(target, ...sources)] *)
Definition Object_assign (target : list (JsString.t * value)) (sources : list value)
  : list (JsString.t * value) :=
  fold_left assign_from sources target.

(** A settings record as the object literal of its six properties. *)
Definition settings_object (st : RefinerSettings) : list (JsString.t * value) :=
  [(lit "apiKey", VString (apiKey st));
   (lit "model", VString (model st));
   (lit "apiUrl", VString (apiUrl st));
   (lit "tags", VString (tags st));
   (lit "additionalInstructions", VString (additionalInstructions st));
   (lit "useOllama", VBool (useOllama st))].

Definition as_string (v : value) : option JsString.t :=
  match v with VString s => Some s | _ => None end.

Definition as_boolean (v : value) : option bool :=
  match v with VBool b => Some b | _ => None end.

(** The settings an object stands for when its six properties have
    the types [RefinerSettings] declares. *)
Definition read_settings (o : list (JsString.t * value)) : option RefinerSettings :=
  k ← as_string (assoc (lit "apiKey") o);
  m ← as_string (assoc (lit "model") o);
  u ← as_string (assoc (lit "apiUrl") o);
  t ← as_string (assoc (lit "tags") o);
  a ← as_string (assoc (lit "additionalInstructions") o);
  b ← as_boolean (assoc (lit "useOllama") o);
  Some {| apiKey := k; model := m; apiUrl := u; tags := t;
          additionalInstructions := a; useOllama := b |}.

(** The plugin's [this.settings] and the stored plugin data that
    [loadData] returns and [saveData] replaces ([null] before the
    first save). *)
Record PluginState : Type := {
  settings : list (JsString.t * value);
  data : value
}.

(** [this.settings = Object.assign({}, DEFAULT_SETTINGS, await this.loadData())] *)
Definition loadSettings (p : PluginState) : PluginState :=
  {| settings := Object_assign [] [VObject (settings_object DEFAULT_SETTINGS); data p];
     data := data p |}.

(** [await this.saveData(this.settings)]: the stored data become the
    settings object as it is; for the strings and booleans the plugin
    puts there, writing it out as JSON and parsing it back changes
    nothing. *)
Definition saveSettings (p : PluginState) : PluginState :=
  {| settings := settings p; data := VObject (settings p) |}.

(** The five text settings of the tab. *)
Inductive text_setting : Type :=
| ApiKey | Model | ApiUrl | Tags | AdditionalInstructions.

Definition setting_key (f : text_setting) : JsString.t :=
  match f with
  | ApiKey => lit "apiKey"
  | Model => lit "model"
  | ApiUrl => lit "apiUrl"
  | Tags => lit "tags"
  | AdditionalInstructions => lit "additionalInstructions"
  end.

(** The [onChange] handler of a text setting (lines 467-470, 480-483,
    492-495, 505-508, 518-521):
    [this.plugin.settings.f = value.trim(); await this.plugin.saveSettings()]. *)
Definition onChange_text (f : text_setting) (value : JsString.t) (p : PluginState) : PluginState :=
  saveSettings {| settings := set_prop (setting_key f) (VString (trim value)) (settings p);
                  data := data p |}.

(** The [onChange] handler of the toggle (lines 454-457). *)
Definition onChange_useOllama (value : bool) (p : PluginState) : PluginState :=
  saveSettings {| settings := set_prop (lit "useOllama") (VBool value) (settings p);
                  data := data p |}.

(** A settings record with one text setting replaced. *)
Definition with_text (f : text_setting) (s : JsString.t) (st : RefinerSettings) : RefinerSettings :=
  match f with
  | ApiKey =>
      {| apiKey := s; model := model st; apiUrl := apiUrl st; tags := tags st;
         additionalInstructions := additionalInstructions st; useOllama := useOllama st |}
  | Model =>
      {| apiKey := apiKey st; model := s; apiUrl := apiUrl st; tags := tags st;
         additionalInstructions := additionalInstructions st; useOllama := useOllama st |}
  | ApiUrl =>
      {| apiKey := apiKey st; model := model st; apiUrl := s; tags := tags st;
         additionalInstructions := additionalInstructions st; useOllama := useOllama st |}
  | Tags =>
      {| apiKey := apiKey st; model := model st; apiUrl := apiUrl st; tags := s;
         additionalInstructions := additionalInstructions st; useOllama := useOllama st |}
  | AdditionalInstructions =>
      {| apiKey := apiKey st; model := model st; apiUrl := apiUrl st; tags := tags st;
         additionalInstructions := s; useOllama := useOllama st |}
  end.

Definition with_useOllama (b : bool) (st : RefinerSettings) : RefinerSettings :=
  {| apiKey := apiKey st; model := model st; apiUrl := apiUrl st; tags := tags st;
     additionalInstructions := additionalInstructions st; useOllama := b |}.

(** The six property names of [RefinerSettings]. *)
Definition setting_names : list JsString.t :=
  [lit "apiKey"; lit "model"; lit "apiUrl"; lit "tags";
   lit "additionalInstructions"; lit "useOllama"].

(** ** The earlier revision of the plugin (lines 1-248 of main.ts) *)

Module V1.

(** [RefinerSettings] before the provider switch was added. *)
Record RefinerSettings : Type := {
  apiKey : JsString.t;
  model : JsString.t;
  apiUrl : JsString.t;
  tags : JsString.t;
  additionalInstructions : JsString.t
}.

(** The object [saveSettings] of that revision stores. *)
Definition settings_object (st : RefinerSettings) : list (JsString.t * value) :=
  [(lit "apiKey", VString (apiKey st));
   (lit "model", VString (model st));
   (lit "apiUrl", VString (apiUrl st));
   (lit "tags", VString (tags st));
   (lit "additionalInstructions", VString (additionalInstructions st))].

Definition tagInstruction (st : RefinerSettings) : JsString.t :=
  if nonempty (trim (tags st))
  then lit "If any content fits the following tags, add them where appropriate (e.g. headers, checklists). Doesn't just have to be for headers, can be at any point in the document: "
       ++ tags st
  else [].

Definition baseInstructions : JsString.t :=
  lit "You are a helpful assistant that formats and improves Markdown notes for use in Obsidian." ++ nl
  ++ nl
  ++ lit "Clean up the following note by:" ++ nl
  ++ lit "- Fixing grammar, punctuation, and inconsistent structure" ++ nl
  ++ lit "- Making the content easier to read and logically organized" ++ nl
  ++ lit "- Applying proper Obsidian Markdown formatting:" ++ nl
  ++ lit "  - Use `#` or `##` or `###` or `####` for section headings where appropriate" ++ nl
  ++ lit "  - Format lists using `-` or `1.` consistently" ++ nl
  ++ lit "  - Convert any tasks into `[ ]` or `[x]` checkboxes" ++ nl
  ++ lit "  - Preserve and reformat code blocks, blockquotes, and inline formatting correctly" ++ nl
  ++ lit "  - Don't output the response in a code block. Parts of the notes can be in code blocks, but the entire response should not be in a code block." ++ nl
  ++ lit "  - Avoid inserting a horizontal rule at the very beginning of the note (`---`) as it breaks rendering in Obsidian" ++ nl
  ++ nl
  ++ lit "Keep all important content, but reword or reformat for clarity where helpful.".

(** The template literal of [const prompt] (lines 86-89). *)
Definition prompt (st : RefinerSettings) (original : JsString.t) : JsString.t :=
  baseInstructions ++ nl
  ++ (if nonempty (tagInstruction st) then nl ++ lit "- " ++ tagInstruction st else []) ++ nl
  ++ (if nonempty (additionalInstructions st)
      then nl ++ nl
           ++ lit "Here are additional instructions for how to modify the document. These are not part of the document:"
           ++ nl ++ additionalInstructions st
      else []) ++ nl
  ++ nl ++ nl ++ lit "### Here is the contents of the document to edit:" ++ nl ++ nl
  ++ original.

(** The markers of that revision. *)
Definition extra_marker : JsString.t :=
  nl ++ nl
  ++ lit "Here are additional instructions for how to modify the document. These are not part of the document:"
  ++ nl.

Definition note_marker : JsString.t :=
  nl ++ nl ++ lit "### Here is the contents of the document to edit:" ++ nl ++ nl.

End V1.

(** The settings of the earlier revision as the later one loads them. *)
Definition upgrade (st : V1.RefinerSettings) : RefinerSettings :=
  {| apiKey := V1.apiKey st; model := V1.model st; apiUrl := V1.apiUrl st;
     tags := V1.tags st; additionalInstructions := V1.additionalInstructions st;
     useOllama := false |}.

(** ** More sample inputs *)

Definition sample_state : PluginState :=
  {| settings := settings_object sample_settings; data := VNull |}.

(** Stored data that names two settings only. *)
Definition partial_data : value :=
  VObject [(lit "model", VString (lit "llama3")); (lit "useOllama", VBool true)].

(** ** Facts about strings *)

Section StringFacts.

Implicit Types s p a b : JsString.t.

Lemma nonempty_true s : nonempty s = true <-> s <> [].
Proof. destruct s; simpl; split; congruence. Qed.

Lemma nonempty_false s : nonempty s = false <-> s = [].
Proof. destruct s; simpl; split; congruence. Qed.

Lemma nonempty_app_l a b : nonempty a = true -> nonempty (a ++ b) = true.
Proof. destruct a; simpl; congruence. Qed.

Lemma startsWith_prefix s p : startsWith s p = true <-> p `prefix_of` s.
Proof.
  revert s. induction p as [|c p IH]; intros s; simpl.
  - split; [intros _; apply prefix_nil | reflexivity].
  - destruct s as [|d s].
    + split; [discriminate | intros H; apply prefix_nil_inv in H; discriminate].
    + rewrite andb_true_iff, N.eqb_eq, IH. split.
      * intros [-> H]. by apply prefix_cons.
      * intros H. split; [by eapply prefix_cons_inv_1 | by eapply prefix_cons_inv_2].
Qed.

Lemma infix_here s p : p `prefix_of` s -> infix p s.
Proof. intros [k ->]. by exists [], k. Qed.

Lemma infix_later c s p : infix p s -> infix p (c :: s).
Proof. intros (a & b & ->). by exists (c :: a), b. Qed.

Lemma infix_app_l a s p : infix p s -> infix p (a ++ s).
Proof. intros (x & y & ->). exists (a ++ x), y. by rewrite <- app_assoc. Qed.

Lemma infix_app_r b s p : infix p s -> infix p (s ++ b).
Proof. intros (x & y & ->). exists x, (y ++ b). by rewrite <- !app_assoc. Qed.

Lemma infix_refl p : infix p p.
Proof. exists [], []. by rewrite app_nil_r. Qed.

(** [includes] decides [infix]. *)
Lemma includes_infix s p : includes s p = true <-> infix p s.
Proof.
  split.
  - induction s as [|c s IH]; simpl; rewrite orb_true_iff.
    + intros [H|H]; [|discriminate]. by apply infix_here, startsWith_prefix.
    + intros [H|H]; [by apply infix_here, startsWith_prefix | by apply infix_later, IH].
  - intros (a & b & ->). induction a as [|c a IH]; simpl.
    + assert (startsWith (p ++ b) p = true) as Hp
        by (apply startsWith_prefix; by exists b).
      destruct p, b; simpl in *; rewrite ?Hp; reflexivity.
    + rewrite IH. apply orb_true_r.
Qed.

Lemma not_includes_infix s p : includes s p = false -> ~ infix p s.
Proof. intros H Hin. apply includes_infix in Hin. congruence. Qed.

Lemma trimStart_suffix s : trimStart s `suffix_of` s.
Proof.
  induction s as [|c s IH]; simpl; [done|].
  destruct (is_space c); [by apply suffix_cons_r | done].
Qed.

Lemma trimEnd_prefix s : trimEnd s `prefix_of` s.
Proof.
  unfold trimEnd. destruct (trimStart_suffix (rev s)) as [tail Ht].
  exists (rev tail). rewrite <- rev_app_distr, <- Ht. by rewrite rev_involutive.
Qed.

(** What [trim] leaves is a contiguous part of the string. *)
Lemma trim_infix s : infix (trim s) s.
Proof.
  unfold trim.
  destruct (trimStart_suffix s) as [lead Hs].
  destruct (trimEnd_prefix (trimStart s)) as [tail Ht].
  exists lead, tail. by rewrite <- Ht.
Qed.

Lemma trim_nonempty s : nonempty (trim s) = true -> nonempty s = true.
Proof.
  destruct s; [discriminate | done].
Qed.

Lemma trimStart_all_space s : forallb is_space s = true -> trimStart s = [].
Proof.
  induction s as [|c s IH]; simpl; [done|].
  rewrite andb_true_iff. intros [-> H]. auto.
Qed.

(** A string of white space only trims to the empty string. *)
Lemma trim_all_space s : forallb is_space s = true -> trim s = [].
Proof.
  intros H. unfold trim. by rewrite (trimStart_all_space s H).
Qed.

Lemma trimStart_head s :
  trimStart s = [] \/ exists c rest, trimStart s = c :: rest /\ is_space c = false.
Proof.
  induction s as [|c s IH]; simpl; [by left|].
  destruct (is_space c) eqn:Hc; [exact IH | right; eauto].
Qed.

Lemma trimStart_nil_all_space s : trimStart s = [] -> forallb is_space s = true.
Proof.
  induction s as [|c s IH]; simpl; [done|].
  destruct (is_space c); [exact IH | discriminate].
Qed.

(** Conversely, a string that trims to the empty string holds white
    space only: the two cases of a trimmed test cover every string. *)
Lemma trim_nil_all_space s : trim s = [] -> forallb is_space s = true.
Proof.
  unfold trim, trimEnd. intros H.
  apply (f_equal (@rev N)) in H. rewrite rev_involutive in H. simpl in H.
  apply trimStart_nil_all_space in H.
  destruct (trimStart_head s) as [Hnil | (c & rest & Hs & Hc)].
  - by apply trimStart_nil_all_space.
  - rewrite Hs in H. rewrite forallb_forall in H.
    specialize (H c). rewrite <- in_rev in H.
    rewrite H in Hc; [discriminate | by left].
Qed.

End StringFacts.

(** ** The prompt *)

Section PromptFacts.

Variable st : RefinerSettings.
Variable body : JsString.t.

Lemma tagInstruction_truthy :
  nonempty (tagInstruction st) = nonempty (trim (tags st)).
Proof.
  unfold tagInstruction. destruct (nonempty (trim (tags st))); [|done].
  by apply nonempty_app_l.
Qed.

(** The template literal read clause by clause. *)
Lemma prompt_eq_layout :
  prompt st body = prompt_layout (tag_clause st) (extra_clause st) body.
Proof.
  unfold prompt, prompt_layout, tag_clause, extra_clause.
  rewrite tagInstruction_truthy. unfold tagInstruction.
  unfold tag_clause_of, extra_clause_of, extra_marker, note_marker.
  destruct (nonempty (trim (tags st))), (nonempty (additionalInstructions st));
    by rewrite <- ?app_assoc.
Qed.

Lemma layout_body_suffix tagc extrac : body `suffix_of` prompt_layout tagc extrac body.
Proof. unfold prompt_layout. do 7 apply suffix_app_r. done. Qed.

Lemma layout_tag_infix tagc extrac : infix tagc (prompt_layout tagc extrac body).
Proof.
  unfold prompt_layout. do 2 apply infix_app_l. apply infix_app_r with (s := tagc), infix_refl.
Qed.

Lemma layout_extra_infix tagc extrac : infix extrac (prompt_layout tagc extrac body).
Proof.
  unfold prompt_layout. do 4 apply infix_app_l. apply infix_app_r with (s := extrac), infix_refl.
Qed.

End PromptFacts.

(** C2: the prompt is the base instruction block, then the tag clause
    (if any), then the extra-instructions clause (if any), then the
    document marker, then the body, in that order; and whatever the
    body holds, it ends the prompt unchanged. *)
Theorem prompt_order_and_body_suffix (st : RefinerSettings) (body : JsString.t) :
  exists tag_part extra_part,
    prompt st body
    = baseInstructions ++ nl ++ tag_part ++ nl ++ extra_part ++ nl ++ note_marker ++ body
    /\ (tag_part = [] \/ tag_part = tag_clause_of (tags st))
    /\ (extra_part = [] \/ extra_part = extra_clause_of (additionalInstructions st))
    /\ body `suffix_of` prompt st body.
Proof.
  exists (tag_clause st), (extra_clause st).
  split; [apply prompt_eq_layout|].
  split; [unfold tag_clause; destruct (nonempty _); auto|].
  split; [unfold extra_clause; destruct (nonempty _); auto|].
  rewrite prompt_eq_layout. apply layout_body_suffix.
Qed.

(** *** Tags *)

(** C6, as stated, fails: the tag text stored with a leading blank
    trims to [#todo], and the clause that refers to the trimmed text
    occurs nowhere in the prompt: the stored text is what the clause
    carries. *)
Lemma padded_tags_clause_not_trimmed :
  trim (tags padded_tags_settings) = lit "#todo"
  /\ ~ infix (tag_clause_of (trim (tags padded_tags_settings)))
         (prompt padded_tags_settings sample_body)
  /\ infix (tag_clause_of (lit " #todo")) (prompt padded_tags_settings sample_body).
Proof.
  split; [reflexivity|]. split.
  - apply not_includes_infix. vm_compute. reflexivity.
  - apply includes_infix. vm_compute. reflexivity.
Qed.

(** C6 (as amended): when the tag text is non-empty after trimming, the
    prompt holds the tag clause, and the clause refers to the tag text
    exactly as stored, which contains the trimmed text and is the
    trimmed text whenever the settings hold it trimmed; when the tag
    text is empty or white space only, the tag slot of the prompt is
    empty. *)
Theorem tag_clause_presence (st : RefinerSettings) (body : JsString.t) :
  (trim (tags st) <> [] ->
     prompt st body = prompt_layout (tag_clause_of (tags st)) (extra_clause st) body
     /\ infix (tag_clause_of (tags st)) (prompt st body)
     /\ infix (trim (tags st)) (tag_clause_of (tags st))
     /\ (tags st = trim (tags st) ->
         infix (tag_clause_of (trim (tags st))) (prompt st body)))
  /\ (forallb is_space (tags st) = true ->
      prompt st body = prompt_layout [] (extra_clause st) body).
Proof.
  split.
  - intros Hne. apply nonempty_true in Hne.
    assert (prompt st body
            = prompt_layout (tag_clause_of (tags st)) (extra_clause st) body) as Heq.
    { rewrite prompt_eq_layout. unfold tag_clause. by rewrite Hne. }
    split; [exact Heq|].
    assert (infix (tag_clause_of (tags st)) (prompt st body)) as Hin
      by (rewrite Heq; apply layout_tag_infix).
    split; [exact Hin|]. split.
    + unfold tag_clause_of. do 3 apply infix_app_l. apply trim_infix.
    + intros <-. exact Hin.
  - intros Hws. rewrite prompt_eq_layout. unfold tag_clause.
    by rewrite (trim_all_space _ Hws).
Qed.

(** The theorem at the sample settings, where the stored tag text is
    already trimmed, and at tags of white space only. *)
Lemma tag_clause_presence_sample :
  (prompt sample_settings sample_body
   = prompt_layout (tag_clause_of (lit "#todo")) [] sample_body
   /\ infix (tag_clause_of (trim (tags sample_settings)))
         (prompt sample_settings sample_body))
  /\ prompt blank_tags_settings sample_body = prompt_layout [] [] sample_body.
Proof.
  split.
  - destruct (tag_clause_presence sample_settings sample_body) as [Hsome _].
    destruct Hsome as (Heq & _ & _ & Htrimmed); [discriminate|].
    split; [exact Heq | exact (Htrimmed eq_refl)].
  - destruct (tag_clause_presence blank_tags_settings sample_body) as [_ Hnone].
    apply Hnone. reflexivity.
Defined.

(** *** Extra instructions *)

(** Extra instructions that are not the empty string go into the
    prompt verbatim under their marker; the empty string adds nothing. *)
Lemma extra_clause_presence (st : RefinerSettings) (body : JsString.t) :
  (additionalInstructions st <> [] ->
     prompt st body
     = prompt_layout (tag_clause st) (extra_clause_of (additionalInstructions st)) body
     /\ infix (extra_marker ++ additionalInstructions st) (prompt st body))
  /\ (additionalInstructions st = [] ->
      prompt st body = prompt_layout (tag_clause st) [] body).
Proof.
  split.
  - intros Hne. apply nonempty_true in Hne.
    assert (prompt st body
            = prompt_layout (tag_clause st) (extra_clause_of (additionalInstructions st)) body)
      as Heq.
    { rewrite prompt_eq_layout. unfold extra_clause. by rewrite Hne. }
    split; [exact Heq|]. rewrite Heq. apply layout_extra_infix.
  - intros Hnil. rewrite prompt_eq_layout. unfold extra_clause. by rewrite Hnil.
Qed.

(** C7 (where the code departs from it): extra instructions of two
    blanks are white space only, yet the truthiness test of line 338
    lets them through: the marker and the clause are in the prompt. *)
Theorem blank_extra_instructions_kept :
  trim (additionalInstructions blank_extra_settings) = []
  /\ prompt blank_extra_settings sample_body
     = prompt_layout (tag_clause_of (lit "#todo")) (extra_marker ++ lit "  ") sample_body
  /\ infix extra_marker (prompt blank_extra_settings sample_body).
Proof.
  split; [reflexivity|]. split; [reflexivity|].
  apply includes_infix. vm_compute. reflexivity.
Qed.

(** ** The completion client *)

Ltac js_run :=
  cbv beta iota zeta delta
    [complete complete_try callMistral callMistral_try callOpenAI callOpenAI_try
     check_ok fetch res_text res_json console_error new_Notice
     bind ret throw lift try_catch try_finally member negb
     request_of client_label text_field send
     standard_request alternate_request first_choice_content response_field
     user_message fst snd].

Section CompletionFacts.

Variable env : Env.
Variable st : RefinerSettings.
Variable p : JsString.t.
Variable w : World.

(** The promise of [fetch] is rejected: logged, absence returned. *)
Lemma complete_transport e :
  fetch_io env = Throw e ->
  complete env st p w
  = (add_console (client_label st) e (send (request_of st p) w), Return VNull).
Proof. intros Hf. js_run. destruct (useOllama st); js_run; by rewrite Hf. Qed.

(** The try block on a status outside 200-299. *)
Lemma complete_try_status res b :
  fetch_io env = Return res -> ok res = false -> text res = Return b ->
  complete_try env st p w = (send (request_of st p) w, Throw (api_error res b)).
Proof.
  intros Hf Hok Ht. js_run.
  destruct (useOllama st); js_run; rewrite Hf, Hok; js_run; by rewrite Ht.
Qed.

Lemma complete_status res b :
  fetch_io env = Return res -> ok res = false -> text res = Return b ->
  complete env st p w
  = (add_console (client_label st) (api_error res b) (send (request_of st p) w),
     Return VNull).
Proof.
  intros Hf Hok Ht. js_run.
  destruct (useOllama st); js_run; rewrite Hf, Hok; js_run; by rewrite Ht.
Qed.

Lemma complete_status_unread res e :
  fetch_io env = Return res -> ok res = false -> text res = Throw e ->
  complete env st p w
  = (add_console (client_label st) e (send (request_of st p) w), Return VNull).
Proof.
  intros Hf Hok Ht. js_run.
  destruct (useOllama st); js_run; rewrite Hf, Hok; js_run; by rewrite Ht.
Qed.

(** A body that is not JSON. *)
Lemma complete_malformed res e :
  fetch_io env = Return res -> ok res = true -> json res = Throw e ->
  complete env st p w
  = (add_console (client_label st) e (send (request_of st p) w), Return VNull).
Proof.
  intros Hf Hok Hj. js_run.
  destruct (useOllama st); js_run; rewrite Hf, Hok; js_run; by rewrite Hj.
Qed.

(** A body that is the JSON [null]: the member access throws. *)
Lemma complete_null_body res v :
  fetch_io env = Return res -> ok res = true -> json res = Return v ->
  nullish v = true ->
  exists e,
    complete env st p w
    = (add_console (client_label st) e (send (request_of st p) w), Return VNull).
Proof.
  intros Hf Hok Hj Hn. eexists. js_run.
  destruct (useOllama st); js_run; rewrite Hf, Hok; js_run; rewrite Hj, Hn; reflexivity.
Qed.

(** A JSON body on a 2xx status: the text field, or [null] in its
    place when it is falsy; nothing is logged. *)
Lemma complete_json res v :
  fetch_io env = Return res -> ok res = true -> json res = Return v ->
  nullish v = false ->
  complete env st p w
  = (send (request_of st p) w, Return (or (text_field st v) VNull)).
Proof.
  intros Hf Hok Hj Hn. js_run.
  destruct (useOllama st); js_run; rewrite Hf, Hok; js_run; rewrite Hj, Hn; reflexivity.
Qed.

End CompletionFacts.

Section CompletionTotal.

Variable env : Env.
Variable st : RefinerSettings.
Variable p : JsString.t.
Variable w : World.

Lemma or_null_cases (v : value) :
  (truthy v = true /\ or v VNull = v) \/ (truthy v = false /\ or v VNull = VNull).
Proof. unfold or. destruct (truthy v); auto. Qed.

Lemma send_network (request : JsString.t * RequestInit) :
  network (send request w) = network w ++ [request].
Proof. by destruct request. Qed.

(** Every run of the completion client sends one request and returns:
    a truthy value, or [null] after at most one console entry; the
    vault, the modals and the notices are not touched. *)
Lemma complete_total :
  exists w' r,
    complete env st p w = (w', Return r)
    /\ quiet w w'
    /\ network w' = network w ++ [request_of st p]
    /\ ((r = VNull /\ exists entries, console w' = console w ++ entries)
        \/ (truthy r = true /\ console w' = console w)).
Proof.
  destruct (fetch_io env) as [res|e] eqn:Hf.
  2:{ do 2 eexists. split; [by apply complete_transport|].
      repeat split; [apply send_network | left; split; eauto]. }
  destruct (ok res) eqn:Hok.
  - destruct (json res) as [v|e] eqn:Hj.
    + destruct (nullish v) eqn:Hn.
      * destruct (complete_null_body env st p w res v Hf Hok Hj Hn) as [e ->].
        do 2 eexists. split; [reflexivity|].
        repeat split; [apply send_network | left; split; eauto].
      * rewrite (complete_json env st p w res v Hf Hok Hj Hn).
        do 2 eexists. split; [reflexivity|].
        repeat split; [apply send_network|].
        destruct (or_null_cases (text_field st v)) as [[Ht ->] | [_ ->]].
        -- right. by split.
        -- left. split; [done|]. exists []. by rewrite app_nil_r.
    + do 2 eexists. split; [by eapply complete_malformed|].
      repeat split; [apply send_network | left; split; eauto].
  - destruct (text res) as [b|e] eqn:Ht.
    + do 2 eexists. split; [by eapply complete_status|].
      repeat split; [apply send_network | left; split; eauto].
    + do 2 eexists. split; [by eapply complete_status_unread|].
      repeat split; [apply send_network | left; split; eauto].
Qed.

(** The completion client never hands back the empty string. *)
Lemma complete_never_empty_string :
  (complete env st p w).2 <> Return (VString []).
Proof.
  destruct complete_total as (w' & r & -> & _ & _ & [[-> _] | [Ht _]]); simpl.
  - discriminate.
  - intros [= ->]. discriminate.
Qed.

End CompletionTotal.

Lemma ok_2xx (res : Response) : ok res = true <-> 200 <= status res <= 299.
Proof. unfold ok. rewrite andb_true_iff, !N.leb_le. tauto. Qed.

Lemma not_ok_2xx (res : Response) : ok res = false <-> ~ (200 <= status res <= 299).
Proof. rewrite <- ok_2xx. destruct (ok res); split; congruence. Qed.

(** C3: with the alternate-provider flag off, the client posts to the
    configured URL with the bearer credential and the body
    [{ model, messages: [{ role: "user", content: prompt }],
    temperature: 0.3 }]; on a 2xx response it returns the first
    choice's message content, and [null], never a thrown fault, when
    that field is absent. *)
Theorem standard_shape_exchange (env : Env) (st : RefinerSettings) (p : JsString.t) (w : World) :
  useOllama st = false ->
  network (complete env st p w).1
  = network w ++
    [(apiUrl st,
      {| method := lit "POST";
         headers := [(lit "Content-Type", lit "application/json");
                     (lit "Authorization", lit "Bearer " ++ apiKey st)];
         body := JSON_stringify (VObject
           [(lit "model", VString (model st));
            (lit "messages",
             VArray [VObject [(lit "role", VString (lit "user"));
                              (lit "content", VString p)]]);
            (lit "temperature", VNumber 0.3)]) |})]
  /\ is_Return (complete env st p w).2
  /\ forall res v,
       fetch_io env = Return res -> 200 <= status res <= 299 -> json res = Return v ->
       (forall s, first_choice_content v = VString s -> s <> [] ->
                  complete env st p w = (send (standard_request st p) w, Return (VString s)))
       /\ (first_choice_content v = VUndefined ->
           (complete env st p w).2 = Return VNull)
       /\ (nullish v = false ->
           (complete env st p w).2 = Return (or (first_choice_content v) VNull)).
Proof.
  intros Hshape.
  assert (request_of st p = standard_request st p) as Hreq
    by (unfold request_of; by rewrite Hshape).
  assert (forall v, text_field st v = first_choice_content v) as Hfield
    by (intros v; unfold text_field; by rewrite Hshape).
  destruct (complete_total env st p w) as (w' & r & Hrun & _ & Hnet & _).
  rewrite Hrun. simpl. split; [by rewrite Hnet, Hreq|]. split; [done|].
  intros res v Hf Hok Hj. apply ok_2xx in Hok.
  destruct (nullish v) eqn:Hn.
  - destruct (complete_null_body env st p w res v Hf Hok Hj Hn) as [e He].
    rewrite He in Hrun. injection Hrun as <- <-.
    destruct v; try discriminate; (split; [|split]; [intros s Hs; discriminate | done | done]).
  - rewrite (complete_json env st p w res v Hf Hok Hj Hn) in Hrun.
    injection Hrun as <- <-. rewrite Hfield, Hreq.
    split; [|split].
    + intros s -> Hs. unfold or. simpl. by destruct s.
    + by intros ->.
    + done.
Qed.

(** The theorem at the success body with content [X] and at a body
    without [choices]. *)
Lemma standard_shape_exchange_sample :
  (complete (env_of (Return chat_X)) sample_settings (lit "hello") sample_world).2
  = Return (VString (lit "X"))
  /\ (complete (env_of (Return chat_no_choices)) sample_settings (lit "hello") sample_world).2
     = Return VNull.
Proof.
  split.
  - destruct (standard_shape_exchange (env_of (Return chat_X)) sample_settings
                (lit "hello") sample_world eq_refl) as (_ & _ & Hres).
    destruct (Hres chat_X _ eq_refl ltac:(simpl; lia) eq_refl) as (Htext & _ & _).
    rewrite (Htext (lit "X") eq_refl ltac:(discriminate)). reflexivity.
  - destruct (standard_shape_exchange (env_of (Return chat_no_choices)) sample_settings
                (lit "hello") sample_world eq_refl) as (_ & _ & Hres).
    destruct (Hres chat_no_choices _ eq_refl ltac:(simpl; lia) eq_refl) as (_ & Habsent & _).
    exact (Habsent eq_refl).
Defined.

(** C4: with the alternate-provider flag on, the client posts to the
    configured URL without an Authorization header and with the body
    [{ model, messages: [{ role: "user", content: prompt }],
    max_tokens: 512, temperature: 0.3 }]; on a 2xx response it returns
    the top-level [response] field, and absence ([null]) when the field
    is missing. *)
Theorem alternate_shape_exchange (env : Env) (st : RefinerSettings) (p : JsString.t) (w : World) :
  useOllama st = true ->
  network (complete env st p w).1
  = network w ++
    [(apiUrl st,
      {| method := lit "POST";
         headers := [(lit "Content-Type", lit "application/json")];
         body := JSON_stringify (VObject
           [(lit "model", VString (model st));
            (lit "messages",
             VArray [VObject [(lit "role", VString (lit "user"));
                              (lit "content", VString p)]]);
            (lit "max_tokens", VNumber 512);
            (lit "temperature", VNumber 0.3)]) |})]
  /\ is_Return (complete env st p w).2
  /\ forall res v,
       fetch_io env = Return res -> 200 <= status res <= 299 -> json res = Return v ->
       (forall s, response_field v = VString s -> s <> [] ->
                  complete env st p w = (send (alternate_request st p) w, Return (VString s)))
       /\ (response_field v = VUndefined ->
           (complete env st p w).2 = Return VNull)
       /\ (nullish v = false ->
           (complete env st p w).2 = Return (or (response_field v) VNull)).
Proof.
  intros Hshape.
  assert (request_of st p = alternate_request st p) as Hreq
    by (unfold request_of; by rewrite Hshape).
  assert (forall v, text_field st v = response_field v) as Hfield
    by (intros v; unfold text_field; by rewrite Hshape).
  destruct (complete_total env st p w) as (w' & r & Hrun & _ & Hnet & _).
  rewrite Hrun. simpl. split; [by rewrite Hnet, Hreq|]. split; [done|].
  intros res v Hf Hok Hj. apply ok_2xx in Hok.
  destruct (nullish v) eqn:Hn.
  - destruct (complete_null_body env st p w res v Hf Hok Hj Hn) as [e He].
    rewrite He in Hrun. injection Hrun as <- <-.
    destruct v; try discriminate; (split; [|split]; [intros s Hs; discriminate | done | done]).
  - rewrite (complete_json env st p w res v Hf Hok Hj Hn) in Hrun.
    injection Hrun as <- <-. rewrite Hfield, Hreq.
    split; [|split].
    + intros s -> Hs. unfold or. simpl. by destruct s.
    + by intros ->.
    + done.
Qed.

(** The theorem at the success body with response [Y] and at a body
    without [response]. *)
Lemma alternate_shape_exchange_sample :
  (complete (env_of (Return generate_Y)) ollama_settings (lit "hello") sample_world).2
  = Return (VString (lit "Y"))
  /\ (complete (env_of (Return chat_X)) ollama_settings (lit "hello") sample_world).2
     = Return VNull.
Proof.
  split.
  - destruct (alternate_shape_exchange (env_of (Return generate_Y)) ollama_settings
                (lit "hello") sample_world eq_refl) as (_ & _ & Hres).
    destruct (Hres generate_Y _ eq_refl ltac:(simpl; lia) eq_refl) as (Htext & _ & _).
    rewrite (Htext (lit "Y") eq_refl ltac:(discriminate)). reflexivity.
  - destruct (alternate_shape_exchange (env_of (Return chat_X)) ollama_settings
                (lit "hello") sample_world eq_refl) as (_ & _ & Hres).
    destruct (Hres chat_X _ eq_refl ltac:(simpl; lia) eq_refl) as (_ & Habsent & _).
    exact (Habsent eq_refl).
Defined.

(** C5, as stated, fails: on a 401 the completion client does not
    yield the error. What it hands to its caller is [null], the very
    result it gives for a 2xx body without [choices]; it is not a
    thrown fault, and the error is found on the console only. *)
Lemma unauthorized_yields_absence :
  (complete (env_of (Return unauthorized_401)) sample_settings (lit "hello") sample_world).2
  = Return VNull
  /\ (complete (env_of (Return unauthorized_401)) sample_settings (lit "hello")
        sample_world).2
     <> Throw (Error (lit "API Error: 401 Unauthorized - invalid api key"))
  /\ (complete (env_of (Return unauthorized_401)) sample_settings (lit "hello")
        sample_world).2
     = (complete (env_of (Return chat_no_choices)) sample_settings (lit "hello")
          sample_world).2
  /\ console (complete (env_of (Return unauthorized_401)) sample_settings (lit "hello")
                sample_world).1
     = [(lit "Refiner Plugin Error:",
         Error (lit "API Error: 401 Unauthorized - invalid api key"))].
Proof.
  assert ((complete (env_of (Return unauthorized_401)) sample_settings (lit "hello")
             sample_world).2 = Return VNull) as Hnull by reflexivity.
  split; [exact Hnull|]. split; [rewrite Hnull; discriminate|].
  split; [rewrite Hnull; reflexivity | reflexivity].
Qed.

(** C5 (as amended): on a status outside 200-299, in either shape, the
    client reads the body as text and raises, inside its try block,
    the error that carries the status code, the status text and the
    body verbatim; its own catch block records that error on the
    console, and what the client returns to its caller is [null]. *)
Theorem non_2xx_raises_api_error
    (env : Env) (st : RefinerSettings) (p : JsString.t) (w : World)
    (res : Response) (raw : JsString.t) :
  fetch_io env = Return res ->
  ~ (200 <= status res <= 299) ->
  text res = Return raw ->
  complete_try env st p w
  = (send (request_of st p) w,
     Throw (Error (lit "API Error: " ++ of_N (status res) ++ lit " " ++ statusText res
                   ++ lit " - " ++ raw)))
  /\ console (complete env st p w).1
     = console w ++
       [(client_label st,
         Error (lit "API Error: " ++ of_N (status res) ++ lit " " ++ statusText res
                ++ lit " - " ++ raw))]
  /\ (complete env st p w).2 = Return VNull.
Proof.
  intros Hf Hok Ht. apply not_ok_2xx in Hok.
  split; [by apply complete_try_status|].
  by rewrite (complete_status env st p w res raw Hf Hok Ht).
Qed.

(** The theorem at a 401 in the standard shape and at a 500 in the
    alternate shape: the error raised, the console entry, the result. *)
Lemma non_2xx_raises_api_error_sample :
  (complete_try (env_of (Return unauthorized_401)) sample_settings (lit "hello") sample_world
   = (send (standard_request sample_settings (lit "hello")) sample_world,
      Throw (Error (lit "API Error: 401 Unauthorized - invalid api key")))
   /\ console (complete (env_of (Return unauthorized_401)) sample_settings (lit "hello")
                 sample_world).1
      = console sample_world ++
        [(lit "Refiner Plugin Error:",
          Error (lit "API Error: 401 Unauthorized - invalid api key"))]
   /\ (complete (env_of (Return unauthorized_401)) sample_settings (lit "hello")
         sample_world).2 = Return VNull)
  /\ (complete_try (env_of (Return server_error_500)) ollama_settings (lit "hello")
        sample_world
      = (send (alternate_request ollama_settings (lit "hello")) sample_world,
         Throw (Error (lit "API Error: 500 Internal Server Error - server error")))
      /\ console (complete (env_of (Return server_error_500)) ollama_settings (lit "hello")
                    sample_world).1
         = console sample_world ++
           [(lit "Mistral API Error:",
             Error (lit "API Error: 500 Internal Server Error - server error"))]
      /\ (complete (env_of (Return server_error_500)) ollama_settings (lit "hello")
            sample_world).2 = Return VNull).
Proof.
  split.
  - exact (non_2xx_raises_api_error (env_of (Return unauthorized_401))
             sample_settings (lit "hello") sample_world unauthorized_401 _
             eq_refl ltac:(simpl; lia) eq_refl).
  - exact (non_2xx_raises_api_error (env_of (Return server_error_500))
             ollama_settings (lit "hello") sample_world server_error_500 _
             eq_refl ltac:(simpl; lia) eq_refl).
Defined.

(** C8 (where the code departs from it): a 2xx body whose text field
    holds a value that is truthy but not a string comes back as it is:
    a list of content parts in the standard shape, a number in the
    alternate shape. Neither is text, neither is [null]; being truthy,
    the value passes the test of line 346 and is handed to
    [vault.modify], whose refusal is what the console then records. *)
Theorem completion_returns_non_text :
  (complete (env_of (Return chat_parts)) sample_settings (lit "hello") sample_world).2
  = Return (VArray [VObject [(lit "type", VString (lit "text"));
                             (lit "text", VString (lit "hi"))]])
  /\ (complete (env_of (Return generate_42)) ollama_settings (lit "hello") sample_world).2
     = Return (VNumber 42)
  /\ console (refineNote (env_of (Return chat_parts)) sample_settings sample_file
                sample_world).1
     = [(lit "Refiner Error:", TypeError (lit "data must be a string"))].
Proof.
  split; [reflexivity|]. split; [reflexivity|].
  vm_compute. reflexivity.
Qed.

(** What does hold of the text field: an empty string in it is read as
    absence, in both shapes. *)
Lemma empty_text_is_absence
    (env : Env) (st : RefinerSettings) (p : JsString.t) (w : World) (res : Response) (v : value) :
  fetch_io env = Return res -> ok res = true -> json res = Return v ->
  text_field st v = VString [] ->
  (complete env st p w).2 = Return VNull.
Proof.
  intros Hf Hok Hj Hfield.
  destruct (nullish v) eqn:Hn.
  - by destruct (complete_null_body env st p w res v Hf Hok Hj Hn) as [e ->].
  - by rewrite (complete_json env st p w res v Hf Hok Hj Hn), Hfield.
Qed.

(** ** The refine operation *)

Section RefineFacts.

Variable env : Env.
Variable st : RefinerSettings.
Variable file : TFile.

Lemma vault_read_cases (w : World) :
  (exists original,
      read_io env = None /\ vault w !! path file = Some original
      /\ vault_read env file w = (w, Return original))
  \/ (exists e,
      (read_io env <> None \/ vault w !! path file = None)
      /\ vault_read env file w = (w, Throw e)).
Proof.
  unfold vault_read.
  destruct (read_io env) as [e|]; [right; exists e; split; [by left | done]|].
  destruct (vault w !! path file) as [original|]; [left | right]; eauto.
Qed.

Lemma vault_modify_cases (data : value) (w : World) :
  (exists text,
      vault_modify env file data w = (set_vault <[path file := text]> w, Return tt)
      /\ modify_io env = None
      /\ forall s, data = VString s -> text = s)
  \/ (exists e, vault_modify env file data w = (w, Throw e)).
Proof.
  unfold vault_modify.
  destruct (modify_io env) as [e|]; [right; by exists e|].
  destruct data;
    try (destruct (modify_foreign env _) as [text|e];
         [left; exists text; repeat split; intros; discriminate | right; by exists e]).
  left. exists s. repeat split. by intros ? [= <-].
Qed.

Lemma vault_modify_text (s : JsString.t) (w : World) :
  modify_io env = None ->
  vault_modify env file (VString s) w = (set_vault <[path file := s]> w, Return tt).
Proof. intros H. unfold vault_modify. by rewrite H. Qed.

Lemma vault_modify_fault (data : value) (w : World) e :
  modify_io env = Some e -> vault_modify env file data w = (w, Throw e).
Proof. intros H. unfold vault_modify. by rewrite H. Qed.

(** The guarded block always completes, in one of the four ways. *)
Lemma guarded_block_runs (w0 : World) :
  exists w1,
    try_catch (refineNote_try env st file) refineNote_catch w0 = (w1, Return tt)
    /\ refine_run env st file w0 w1.
Proof.
  unfold try_catch, refineNote_try, refineNote_catch, bind at 1.
  destruct (vault_read_cases w0) as [(original & _ & _ & Hread) | (e & _ & Hread)];
    rewrite Hread.
  2:{ eexists. split; [reflexivity|]. by apply run_unreadable. }
  unfold bind at 1.
  destruct (complete_total env st (prompt st original) w0) as (w1 & r & Hrun & _).
  rewrite Hrun. destruct (truthy r) eqn:Htruthy.
  - unfold bind at 1.
    destruct (vault_modify_cases r w1) as [(text & Hmod & _ & Htext) | (e & Hmod)];
      rewrite Hmod.
    + eexists. split; [reflexivity|]. by eapply run_written.
    + eexists. split; [reflexivity|]. by eapply run_unwritable.
  - eexists. split; [reflexivity|]. by eapply run_absent.
Qed.

Lemma open_then_running (w : World) :
  set_modals <[length (modals w) := true]> (set_modals (fun ms => ms ++ [false]) w)
  = running w.
Proof.
  unfold running, set_modals. simpl. f_equal.
  rewrite insert_app_r_alt by lia. by rewrite Nat.sub_diag.
Qed.

(** [refineNote] is its guarded block run with the modal open,
    followed by the closing of that modal. *)
Lemma refineNote_unfold (w : World) :
  refineNote env st file w
  = try_finally (try_catch (refineNote_try env st file) refineNote_catch)
      (modal_close (length (modals w))) (running w).
Proof.
  unfold refineNote, bind, new_LoadingModal, modal_open. by rewrite open_then_running.
Qed.

Lemma refineNote_run (w : World) :
  exists w1,
    refine_run env st file (running w) w1
    /\ refineNote env st file w
       = (set_modals <[length (modals w) := false]> w1, Return tt).
Proof.
  rewrite refineNote_unfold. unfold try_finally.
  destruct (guarded_block_runs (running w)) as (w1 & -> & Hrun).
  exists w1. by split.
Qed.

(** No way of ending the guarded block touches a modal. *)
Lemma refine_run_modals (w0 w1 : World) :
  refine_run env st file w0 w1 -> modals w1 = modals w0.
Proof.
  destruct 1 as [e _ | original w1 r _ Hc _ | original w1 r e _ Hc _ _
                 | original w1 r text _ Hc _ _ _]; simpl; try done;
    destruct (complete_total env st (prompt st original) w0)
      as (w' & r' & Hrun & (_ & Hm & _) & _); rewrite Hrun in Hc; by injection Hc as <- <-.
Qed.

(** Each way of ending shows exactly one notice. *)
Lemma refine_run_notice (w0 w1 : World) :
  refine_run env st file w0 w1 ->
  exists msg,
    notices w1 = notices w0 ++ [msg]
    /\ (msg = notice_refined file \/ msg = notice_failed \/ msg = notice_error).
Proof.
  destruct 1 as [e _ | original w1 r _ Hc _ | original w1 r e _ Hc _ _
                 | original w1 r text _ Hc _ _ _]; simpl; eauto;
    destruct (complete_total env st (prompt st original) w0)
      as (w' & r' & Hrun & (_ & _ & Hn) & _); rewrite Hrun in Hc;
    injection Hc as <- <-; rewrite Hn; eauto.
Qed.

End RefineFacts.

Section RefineOutcome.

Variable env : Env.
Variable st : RefinerSettings.
Variable file : TFile.
Variable w : World.

(** Each way of ending is what the guarded block computes. *)
Lemma refine_run_sound (w0 w1 : World) :
  refine_run env st file w0 w1 ->
  try_catch (refineNote_try env st file) refineNote_catch w0 = (w1, Return tt).
Proof.
  unfold try_catch, refineNote_try, refineNote_catch.
  destruct 1 as [e Hread | original w1 r Hread Hc Ht | original w1 r e Hread Hc Ht Hm
                 | original w1 r text Hread Hc Ht Hm _];
    unfold bind at 1; rewrite Hread; try reflexivity;
    unfold bind at 1; rewrite Hc, Ht; try reflexivity;
    unfold bind at 1; by rewrite Hm.
Qed.

Lemma refineNote_of_run (w1 : World) :
  refine_run env st file (running w) w1 ->
  refineNote env st file w = (set_modals <[length (modals w) := false]> w1, Return tt).
Proof.
  intros Hrun. rewrite refineNote_unfold. unfold try_finally.
  by rewrite (refine_run_sound _ _ Hrun).
Qed.

Lemma read_running (original : JsString.t) :
  read_io env = None -> vault w !! path file = Some original ->
  vault_read env file (running w) = (running w, Return original).
Proof. intros Hio Hdoc. unfold vault_read. simpl. by rewrite Hio, Hdoc. Qed.

Lemma read_fault_running :
  read_io env <> None \/ vault w !! path file = None ->
  exists e, vault_read env file (running w) = (running w, Throw e).
Proof.
  intros Hfault.
  destruct (vault_read_cases env file (running w))
    as [(original & Hio & Hdoc & _) | (e & _ & Hread)]; [|by exists e].
  simpl in Hdoc. destruct Hfault; congruence.
Qed.

(** The result of the completion call fixes the world it leaves, up to
    what it logged. *)
Lemma complete_result (p : JsString.t) (w0 : World) (r : value) :
  (complete env st p w0).2 = Return r ->
  exists w1, complete env st p w0 = (w1, Return r) /\ vault w1 = vault w0.
Proof.
  destruct (complete_total env st p w0) as (w1 & r' & Hrun & (Hv & _) & _).
  rewrite Hrun. simpl. intros [= <-]. by exists w1.
Qed.

(** The note is replaced by the returned text. *)
Lemma refineNote_written (original s : JsString.t) :
  read_io env = None -> vault w !! path file = Some original ->
  (complete env st (prompt st original) (running w)).2 = Return (VString s) ->
  s <> [] -> modify_io env = None ->
  vault (refineNote env st file w).1 = <[path file := s]> (vault w).
Proof.
  intros Hio Hdoc Hres Hs Hmod.
  destruct (complete_result _ _ _ Hres) as (w1 & Hc & Hv).
  rewrite (refineNote_of_run
             (add_notice (notice_refined file) (set_vault <[path file := s]> w1))).
  - simpl. by rewrite Hv.
  - eapply run_written; eauto using read_running, vault_modify_text.
    + simpl. by apply nonempty_true.
    + by intros ? [= <-].
Qed.

(** A falsy result leaves the note alone. *)
Lemma refineNote_absent (original : JsString.t) (r : value) :
  read_io env = None -> vault w !! path file = Some original ->
  (complete env st (prompt st original) (running w)).2 = Return r ->
  truthy r = false ->
  vault (refineNote env st file w).1 = vault w.
Proof.
  intros Hio Hdoc Hres Hr.
  destruct (complete_result _ _ _ Hres) as (w1 & Hc & Hv).
  rewrite (refineNote_of_run (add_notice notice_failed w1)).
  - simpl. by rewrite Hv.
  - eapply run_absent; eauto using read_running.
Qed.

(** A fault of the vault, reading or writing, leaves the note alone. *)
Lemma refineNote_read_fault :
  read_io env <> None \/ vault w !! path file = None ->
  vault (refineNote env st file w).1 = vault w.
Proof.
  intros Hfault. destruct (read_fault_running Hfault) as [e Hread].
  by rewrite (refineNote_of_run _ (run_unreadable env st file _ e Hread)).
Qed.

Lemma refineNote_write_fault :
  modify_io env <> None ->
  vault (refineNote env st file w).1 = vault w.
Proof.
  intros Hmod. destruct (modify_io env) as [e|] eqn:He; [clear Hmod | done].
  destruct (refineNote_run env st file w) as (w1 & Hrun & ->). simpl.
  destruct Hrun as [e' _ | original w1 r _ Hc _ | original w1 r e' _ Hc _ _
                    | original w1 r text _ Hc _ Hm _]; simpl; try done;
    try (destruct (complete_result (prompt st original) (running w) r) as (w' & Hc' & Hv);
         [by rewrite Hc | rewrite Hc in Hc'; by injection Hc' as <-]).
  by rewrite (vault_modify_fault env file r w1 e He) in Hm.
Qed.

(** No other note is ever touched. *)
Lemma refineNote_other_notes (other : JsString.t) :
  other <> path file ->
  vault (refineNote env st file w).1 !! other = vault w !! other.
Proof.
  intros Hother.
  destruct (refineNote_run env st file w) as (w1 & Hrun & ->). simpl.
  destruct Hrun as [e' _ | original w1 r _ Hc _ | original w1 r e' _ Hc _ _
                    | original w1 r text _ Hc _ Hm _]; simpl; try done;
    destruct (complete_result (prompt st original) (running w) r) as (w' & Hc' & Hv);
    try (by rewrite Hc); rewrite Hc in Hc'; injection Hc' as <-;
    rewrite ?lookup_insert_ne by done; by rewrite Hv.
Qed.

(** Whenever the vault differs afterwards, the note read well, the
    completion returned a truthy value, and one write put a whole new
    body in place: the returned text itself when the value is a
    string. *)
Lemma refineNote_vault_cases :
  vault (refineNote env st file w).1 = vault w
  \/ exists original r text,
       read_io env = None /\ vault w !! path file = Some original
       /\ (complete env st (prompt st original) (running w)).2 = Return r
       /\ truthy r = true /\ modify_io env = None
       /\ (forall s, r = VString s -> text = s)
       /\ vault (refineNote env st file w).1 = <[path file := text]> (vault w).
Proof.
  destruct (refineNote_run env st file w) as (w1 & Hrun & ->). simpl.
  destruct Hrun as [e' _ | original w1 r _ Hc _ | original w1 r e' _ Hc _ _
                    | original w1 r text Hread Hc Ht Hm Htext]; simpl;
    try (left; done);
    destruct (complete_result (prompt st original) (running w) r) as (w' & Hc' & Hv);
    try (by rewrite Hc); rewrite Hc in Hc'; injection Hc' as <-;
    try (left; by rewrite Hv).
  right. exists original, r, text.
  destruct (vault_read_cases env file (running w))
    as [(original' & Hio & Hdoc & Hread') | (e & _ & Hread')];
    rewrite Hread in Hread'; [injection Hread' as <- | discriminate].
  destruct (vault_modify_cases env file r w1) as [(text' & _ & Hmod & _) | (e & Hm')];
    [| rewrite Hm in Hm'; discriminate].
  repeat split; try done.
  - by rewrite Hc.
  - by rewrite Hv.
Qed.

End RefineOutcome.

(** C1: a refine either replaces the body of the note by exactly the
    text the completion returned (a non-empty string, on a vault that
    reads and writes), or leaves it as it was: when the completion
    yields nothing ([null], as after a transport failure or a status
    outside 200-299), when the vault fails to read, and when it fails
    to write. No other note changes, and the body never changes other
    than by one whole replacement after a truthy completion. *)
Theorem refine_replaces_or_leaves
    (env : Env) (st : RefinerSettings) (file : TFile) (w : World) :
  (forall original s,
      read_io env = None -> vault w !! path file = Some original ->
      (complete env st (prompt st original) (running w)).2 = Return (VString s) ->
      s <> [] -> modify_io env = None ->
      vault (refineNote env st file w).1 = <[path file := s]> (vault w))
  /\ (forall original,
      read_io env = None -> vault w !! path file = Some original ->
      (complete env st (prompt st original) (running w)).2 = Return VNull ->
      vault (refineNote env st file w).1 = vault w)
  /\ (forall e, fetch_io env = Throw e -> vault (refineNote env st file w).1 = vault w)
  /\ (forall res,
      fetch_io env = Return res -> ~ (200 <= status res <= 299) ->
      vault (refineNote env st file w).1 = vault w)
  /\ (read_io env <> None \/ vault w !! path file = None ->
      vault (refineNote env st file w).1 = vault w)
  /\ (modify_io env <> None -> vault (refineNote env st file w).1 = vault w)
  /\ (forall other, other <> path file ->
      vault (refineNote env st file w).1 !! other = vault w !! other)
  /\ (vault (refineNote env st file w).1 = vault w
      \/ exists original r text,
           (complete env st (prompt st original) (running w)).2 = Return r
           /\ truthy r = true
           /\ (forall s, r = VString s -> text = s)
           /\ vault (refineNote env st file w).1 = <[path file := text]> (vault w)).
Proof.
  assert (forall original, (forall p w0, (complete env st p w0).2 = Return VNull) ->
            vault_read env file (running w) = (running w, Return original) ->
            vault (refineNote env st file w).1 = vault w) as Hnull.
  { intros original Hc Hread.
    destruct (complete_result env st _ _ _ (Hc (prompt st original) (running w)))
      as (w1 & Hc1 & Hv).
    rewrite (refineNote_of_run env st file w (add_notice notice_failed w1)).
    - simpl. by rewrite Hv.
    - by eapply run_absent. }
  assert ((forall p w0, (complete env st p w0).2 = Return VNull) ->
          vault (refineNote env st file w).1 = vault w) as Hnone.
  { intros Hc.
    destruct (vault_read_cases env file (running w))
      as [(original & _ & _ & Hread) | (e & Hfault & _)].
    - by apply (Hnull original).
    - by apply refineNote_read_fault. }
  repeat split.
  - apply refineNote_written.
  - intros original Hio Hdoc Hres. by eapply refineNote_absent.
  - intros e Hf. apply Hnone. intros p w0.
    by rewrite (complete_transport env st p w0 e Hf).
  - intros res Hf Hok. apply not_ok_2xx in Hok. apply Hnone. intros p w0.
    destruct (text res) as [raw|e] eqn:Ht.
    + by rewrite (complete_status env st p w0 res raw Hf Hok Ht).
    + by rewrite (complete_status_unread env st p w0 res e Hf Hok Ht).
  - apply refineNote_read_fault.
  - apply refineNote_write_fault.
  - apply refineNote_other_notes.
  - destruct (refineNote_vault_cases env st file w)
      as [Hsame | (original & r & text & _ & _ & Hres & Ht & _ & Htext & Hnew)];
      [by left | right; by exists original, r, text].
Qed.

(** The theorem at the two end-to-end scenarios: a success with
    content [X], and a status 500. *)
Lemma refine_replaces_or_leaves_sample :
  vault (refineNote (env_of (Return chat_X)) sample_settings sample_file sample_world).1
  = <[lit "notes/a.md" := lit "X"]> (vault sample_world)
  /\ vault (refineNote (env_of (Return server_error_500)) sample_settings sample_file
              sample_world).1
     = vault sample_world.
Proof.
  split.
  - destruct (refine_replaces_or_leaves (env_of (Return chat_X)) sample_settings
                sample_file sample_world) as (Hwritten & _).
    apply (Hwritten sample_body (lit "X")); try reflexivity. discriminate.
  - destruct (refine_replaces_or_leaves (env_of (Return server_error_500)) sample_settings
                sample_file sample_world) as (_ & _ & _ & Hstatus & _).
    apply (Hstatus server_error_500); [reflexivity | simpl; lia].
Defined.

(** C9: the loading modal opened when the operation starts is closed
    when it ends, whatever the vault and the network did in between:
    the run is the guarded block wrapped in a [finally] that closes the
    modal, the modal is open while the block runs, and in the final
    world it is closed and no other modal has changed. *)
Theorem busy_indicator_released
    (env : Env) (st : RefinerSettings) (file : TFile) (w : World) :
  refineNote env st file w
  = try_finally (try_catch (refineNote_try env st file) refineNote_catch)
      (modal_close (length (modals w))) (running w)
  /\ modals (running w) !! length (modals w) = Some true
  /\ modals (refineNote env st file w).1 !! length (modals w) = Some false
  /\ modals (refineNote env st file w).1 = modals w ++ [false].
Proof.
  split; [apply refineNote_unfold|].
  assert (modals (refineNote env st file w).1 = modals w ++ [false]) as Hclosed.
  { destruct (refineNote_run env st file w) as (w1 & Hrun & ->). simpl.
    rewrite (refine_run_modals env st file _ _ Hrun). simpl.
    rewrite insert_app_r_alt by lia. by rewrite Nat.sub_diag. }
  split; [|split; [rewrite Hclosed|exact Hclosed]].
  - simpl. by rewrite lookup_app_r, Nat.sub_diag by lia.
  - by rewrite lookup_app_r, Nat.sub_diag by lia.
Qed.

(** C10: whatever fails (the transport, the status, the body, a
    missing field, the vault), [refineNote] returns normally, having
    shown exactly one notice: nothing is thrown to the caller. *)
Theorem refine_never_throws
    (env : Env) (st : RefinerSettings) (file : TFile) (w : World) :
  (refineNote env st file w).2 = Return tt
  /\ exists msg,
       notices (refineNote env st file w).1 = notices w ++ [msg]
       /\ (msg = notice_refined file \/ msg = notice_failed \/ msg = notice_error).
Proof.
  destruct (refineNote_run env st file w) as (w1 & Hrun & ->). simpl.
  split; [done|]. apply (refine_run_notice env st file _ _ Hrun).
Qed.

(** ** The end-to-end scenarios *)

(** A success: one request to the configured URL with the bearer
    credential, the note replaced by the returned content, the success
    notice naming the note, the modal closed, nothing on the console. *)
Example scenario_success :
  refineNote (env_of (Return chat_X)) sample_settings sample_file sample_world
  = ({| vault := <[lit "notes/a.md" := lit "X"]> (vault sample_world);
        modals := [false];
        notices := [lit "Note refined: a.md"];
        console := [];
        network := [standard_request sample_settings
                      (prompt sample_settings sample_body)] |},
     Return tt).
Proof. reflexivity. Qed.

(** A status 500 with body [server error]: the note is as it was, the
    failure notice is shown, and the console holds the status and the
    body. *)
Example scenario_server_error :
  refineNote (env_of (Return server_error_500)) sample_settings sample_file sample_world
  = ({| vault := vault sample_world;
        modals := [false];
        notices := [lit "Failed to refine the note."];
        console := [(lit "Refiner Plugin Error:",
                     Error (lit "API Error: 500 Internal Server Error - server error"))];
        network := [standard_request sample_settings
                      (prompt sample_settings sample_body)] |},
     Return tt).
Proof. reflexivity. Qed.

(** With the default settings neither optional clause is in the
    prompt. *)
Example default_settings_prompt (body : JsString.t) :
  prompt DEFAULT_SETTINGS body = prompt_layout [] [] body.
Proof. by rewrite prompt_eq_layout. Qed.

(** The prompt of the scenarios holds the tag clause for [#todo] and
    ends with the two lines of the note. *)
Example scenario_prompt :
  infix (tag_clause_of (lit "#todo")) (prompt sample_settings sample_body)
  /\ (lit "buy milk" ++ nl ++ lit "call mom") `suffix_of` prompt sample_settings sample_body.
Proof.
  split.
  - apply includes_infix. vm_compute. reflexivity.
  - rewrite prompt_eq_layout. apply layout_body_suffix.
Qed.

(** ** More facts about [trim] *)

Section TrimFacts.

Implicit Types s : JsString.t.

Lemma trimStart_idem s : trimStart (trimStart s) = trimStart s.
Proof.
  destruct (trimStart_head s) as [-> | (c & rest & -> & Hc)]; [done|].
  simpl. by rewrite Hc.
Qed.

Lemma trimEnd_idem s : trimEnd (trimEnd s) = trimEnd s.
Proof. unfold trimEnd. by rewrite rev_involutive, trimStart_idem. Qed.

(** Cutting the end of a string that starts with no white space leaves
    a string that starts with no white space. *)
Lemma trimStart_trimEnd s : trimStart s = s -> trimStart (trimEnd s) = trimEnd s.
Proof.
  intros Hs. destruct (trimEnd_prefix s) as [tail Htail].
  destruct (trimEnd s) as [|c rest] eqn:He; [done|].
  destruct (trimStart_head s) as [Hnil | (c' & rest' & Hc' & Hspace)].
  - rewrite Hs in Hnil. rewrite Hnil in Htail. discriminate.
  - rewrite Hs in Hc'. rewrite Hc' in Htail. injection Htail as -> _.
    simpl. by rewrite Hspace.
Qed.

Lemma trim_idem s : trim (trim s) = trim s.
Proof.
  unfold trim. rewrite (trimStart_trimEnd (trimStart s)) by apply trimStart_idem.
  apply trimEnd_idem.
Qed.

Lemma trim_blank_iff s : trim s = [] <-> forallb is_space s = true.
Proof. split; [apply trim_nil_all_space | apply trim_all_space]. Qed.

End TrimFacts.

(** ** Facts about objects *)

Section ObjectFacts.

Implicit Types o props : list (JsString.t * value).
Implicit Types k : JsString.t.

Lemma assoc_set_prop k k' v o :
  assoc k (set_prop k' v o) = if decide (k' = k) then v else assoc k o.
Proof.
  induction o as [|[k0 v0] o IH]; simpl.
  - by destruct (decide (k' = k)).
  - destruct (decide (k0 = k')) as [->|Hne]; simpl.
    + by destruct (decide (k' = k)).
    + destruct (decide (k0 = k)) as [->|Hne'].
      * by destruct (decide (k' = k)).
      * exact IH.
Qed.

Lemma keys_set_prop k v o :
  (set_prop k v o).*1 = if decide (k ∈ o.*1) then o.*1 else o.*1 ++ [k].
Proof.
  induction o as [|[k0 v0] o IH].
  - destruct (decide (k ∈ ([] : list (JsString.t * value)).*1)) as [Hin|_]; [|done].
    by apply elem_of_nil in Hin.
  - cbn [set_prop fmap list_fmap fst]. destruct (decide (k0 = k)) as [->|Hne].
    + destruct (decide (k ∈ k :: o.*1)) as [_|Hnin]; [done|].
      exfalso. apply Hnin, list_elem_of_here.
    + cbn [fmap list_fmap fst]. fold (o.*1). rewrite IH.
      destruct (decide (k ∈ o.*1)) as [Hin|Hnin];
        destruct (decide (k ∈ k0 :: o.*1)) as [Hin'|Hnin']; try done.
      * exfalso. by apply Hnin', list_elem_of_further.
      * apply elem_of_cons in Hin' as [->|Hin']; done.
Qed.

Lemma assoc_missing k o : k ∉ o.*1 -> assoc k o = VUndefined.
Proof.
  induction o as [|[k0 v0] o IH]; [done|].
  intros Hnin. apply not_elem_of_cons in Hnin as [Hne Hnin].
  cbn [assoc]. destruct (decide (k0 = k)) as [->|_]; [done|]. by apply IH.
Qed.

(** Assigning the properties of a source one by one: a key of the
    source gets the source's value, any other key keeps its own. *)
Lemma assoc_assign_props k props o :
  NoDup props.*1 ->
  assoc k (fold_left (fun o kv => set_prop kv.1 kv.2 o) props o)
  = if decide (k ∈ props.*1) then assoc k props else assoc k o.
Proof.
  revert o. induction props as [|[k0 v0] props IH]; intros o Hnd.
  - destruct (decide (k ∈ ([] : list (JsString.t * value)).*1)) as [Hin|_]; [|done].
    by apply elem_of_nil in Hin.
  - apply NoDup_cons in Hnd as [Hfresh Hnd].
    cbn [fold_left fst snd assoc]. rewrite (IH _ Hnd), assoc_set_prop.
    destruct (decide (k0 = k)) as [->|Hne].
    + destruct (decide (k ∈ props.*1)) as [Hin|_]; [done|].
      destruct (decide (k ∈ ((k, v0) :: props).*1)) as [_|Hnin]; [done|].
      exfalso. apply Hnin, list_elem_of_here.
    + destruct (decide (k ∈ props.*1)) as [Hin|Hnin];
        destruct (decide (k ∈ ((k0, v0) :: props).*1)) as [Hin'|Hnin']; try done.
      * exfalso. by apply Hnin', list_elem_of_further.
      * apply elem_of_cons in Hin' as [->|Hin']; done.
Qed.

(** A key the source lacks keeps what the target has. *)
Lemma assoc_assign_other k props o :
  k ∉ props.*1 ->
  assoc k (fold_left (fun o kv => set_prop kv.1 kv.2 o) props o) = assoc k o.
Proof.
  revert o. induction props as [|[k0 v0] props IH]; intros o Hnin; [done|].
  apply not_elem_of_cons in Hnin as [Hne Hnin].
  cbn [fold_left fst snd]. rewrite (IH _ Hnin), assoc_set_prop.
  by destruct (decide (k0 = k)) as [->|_].
Qed.

(** The same with the key [__proto__] passed over, as [assign_from]
    does. *)
Lemma assoc_assign_filtered k props o :
  NoDup props.*1 -> k <> lit "__proto__" ->
  assoc k (fold_left (fun o kv => set_prop kv.1 kv.2 o)
             (filter (fun kv => kv.1 <> lit "__proto__") props) o)
  = if decide (k ∈ props.*1) then assoc k props else assoc k o.
Proof.
  intros Hnd Hk. revert o Hnd. induction props as [|[k0 v0] props IH]; intros o Hnd.
  - destruct (decide (k ∈ ([] : list (JsString.t * value)).*1)) as [Hin|_]; [|done].
    by apply elem_of_nil in Hin.
  - apply NoDup_cons in Hnd as [Hfresh Hnd]. rewrite filter_cons. cbn [fst].
    assert ((if decide (k ∈ ((k0, v0) :: props).*1) then assoc k ((k0, v0) :: props)
             else assoc k o)
            = if decide (k0 = k) then v0
              else if decide (k ∈ props.*1) then assoc k props else assoc k o) as ->.
    { cbn [assoc]. destruct (decide (k0 = k)) as [->|Hne].
      - destruct (decide (k ∈ ((k, v0) :: props).*1)) as [_|Hnin]; [done|].
        exfalso. apply Hnin, list_elem_of_here.
      - destruct (decide (k ∈ props.*1)) as [Hin|Hnin];
          destruct (decide (k ∈ ((k0, v0) :: props).*1)) as [Hin'|Hnin']; try done.
        + exfalso. by apply Hnin', list_elem_of_further.
        + apply elem_of_cons in Hin' as [->|Hin']; done. }
    destruct (decide (k0 <> lit "__proto__")) as [Hcopied|Hskipped].
    + cbn [fold_left fst snd]. rewrite (IH _ Hnd), assoc_set_prop.
      destruct (decide (k0 = k)) as [->|Hne]; [|done].
      by destruct (decide (k ∈ props.*1)).
    + rewrite (IH _ Hnd). destruct (decide (k0 = k)) as [->|Hne]; [|done].
      exfalso. by apply Hskipped.
Qed.

Lemma filtered_keys k props :
  k ∈ (filter (fun kv : JsString.t * value => kv.1 <> lit "__proto__") props).*1 ->
  k ∈ props.*1 /\ k <> lit "__proto__".
Proof.
  intros ([k' v'] & -> & [Hk Hin]%list_elem_of_filter)%list_elem_of_fmap.
  split; [|exact Hk]. apply list_elem_of_fmap. by exists (k', v').
Qed.

Lemma set_prop_NoDup k v o : NoDup o.*1 -> NoDup (set_prop k v o).*1.
Proof.
  intros Hnd. rewrite keys_set_prop. destruct (decide (k ∈ o.*1)); [done|].
  apply NoDup_app. repeat split; [done | | apply NoDup_singleton].
  intros x Hx ->%list_elem_of_singleton. done.
Qed.

End ObjectFacts.

(** ** Loading and saving the settings *)

Section SettingsFacts.

Implicit Types o props : list (JsString.t * value).
Implicit Types st : RefinerSettings.

Lemma read_settings_inv o st :
  read_settings o = Some st ->
  assoc (lit "apiKey") o = VString (apiKey st)
  /\ assoc (lit "model") o = VString (model st)
  /\ assoc (lit "apiUrl") o = VString (apiUrl st)
  /\ assoc (lit "tags") o = VString (tags st)
  /\ assoc (lit "additionalInstructions") o = VString (additionalInstructions st)
  /\ assoc (lit "useOllama") o = VBool (useOllama st).
Proof.
  unfold read_settings. intros H.
  destruct (assoc (lit "apiKey") o); try discriminate H;
  destruct (assoc (lit "model") o); try discriminate H;
  destruct (assoc (lit "apiUrl") o); try discriminate H;
  destruct (assoc (lit "tags") o); try discriminate H;
  destruct (assoc (lit "additionalInstructions") o); try discriminate H;
  destruct (assoc (lit "useOllama") o); try discriminate H.
  simpl in H. by injection H as <-.
Qed.

Lemma read_settings_intro o st :
  assoc (lit "apiKey") o = VString (apiKey st) ->
  assoc (lit "model") o = VString (model st) ->
  assoc (lit "apiUrl") o = VString (apiUrl st) ->
  assoc (lit "tags") o = VString (tags st) ->
  assoc (lit "additionalInstructions") o = VString (additionalInstructions st) ->
  assoc (lit "useOllama") o = VBool (useOllama st) ->
  read_settings o = Some st.
Proof.
  intros H1 H2 H3 H4 H5 H6. unfold read_settings.
  rewrite H1, H2, H3, H4, H5, H6. by destruct st.
Qed.

(** [read_settings] looks at the six named properties only. *)
Lemma read_settings_ext o1 o2 :
  (forall k, k ∈ setting_names -> assoc k o1 = assoc k o2) ->
  read_settings o1 = read_settings o2.
Proof.
  intros H. unfold read_settings.
  rewrite !H; [done | ..]; unfold setting_names; set_solver.
Qed.

Lemma settings_object_read st : read_settings (settings_object st) = Some st.
Proof. by destruct st. Qed.

Lemma assign_defaults :
  assign_from [] (VObject (settings_object DEFAULT_SETTINGS))
  = settings_object DEFAULT_SETTINGS.
Proof. reflexivity. Qed.

Lemma setting_name_plain k : k ∈ setting_names -> k <> lit "__proto__".
Proof.
  unfold setting_names. intros Hk.
  repeat (apply elem_of_cons in Hk as [->|Hk];
          [intros H; vm_compute in H; discriminate H|]).
  by apply elem_of_nil in Hk.
Qed.

(** What [loadSettings] finds under a key other than [__proto__]: the
    stored value when the stored object has the key, the default
    otherwise. *)
Lemma load_lookup (p : PluginState) props k :
  data p = VObject props -> NoDup props.*1 -> k <> lit "__proto__" ->
  assoc k (settings (loadSettings p))
  = if decide (k ∈ props.*1) then assoc k props
    else assoc k (settings_object DEFAULT_SETTINGS).
Proof.
  intros Hdata Hnd Hk. unfold loadSettings, Object_assign. simpl.
  rewrite assign_defaults, Hdata. unfold assign_from. simpl.
  by apply assoc_assign_filtered.
Qed.

(** Data saved from settings of the declared types load as the same
    settings. *)
Lemma load_saved o st (d : value) :
  read_settings o = Some st -> NoDup o.*1 ->
  read_settings (settings (loadSettings (saveSettings {| settings := o; data := d |})))
  = Some st.
Proof.
  intros Hread Hnd. rewrite <- Hread. apply read_settings_ext. intros k Hk.
  rewrite (load_lookup (saveSettings {| settings := o; data := d |}) o k eq_refl Hnd)
    by by apply setting_name_plain.
  destruct (decide (k ∈ o.*1)) as [_|Hnin]; [done|].
  apply assoc_missing in Hnin.
  destruct (read_settings_inv o st Hread) as (H1 & H2 & H3 & H4 & H5 & H6).
  unfold setting_names in Hk.
  repeat (apply elem_of_cons in Hk as [->|Hk]; [congruence|]).
  by apply elem_of_nil in Hk.
Qed.

End SettingsFacts.

Ltac other_key H := exfalso; vm_compute in H; discriminate H.

Ltac present_key :=
  unfold setting_names;
  repeat first [apply list_elem_of_here | apply list_elem_of_further].

Ltac absent_key :=
  let H := fresh in
  intros H;
  repeat (apply elem_of_cons in H as [H|H]; [vm_compute in H; discriminate H|]);
  by apply elem_of_nil in H.

Section TabFacts.

Variable p : PluginState.
Variable st : RefinerSettings.
Hypothesis Htyped : read_settings (settings p) = Some st.

Lemma onChange_text_read (f : text_setting) (value : JsString.t) :
  read_settings (settings (onChange_text f value p)) = Some (with_text f (trim value) st).
Proof using Htyped.
  destruct (read_settings_inv _ _ Htyped) as (H1 & H2 & H3 & H4 & H5 & H6).
  unfold onChange_text, saveSettings. cbn [settings].
  apply read_settings_intro; rewrite assoc_set_prop;
    destruct f; cbn [setting_key with_text apiKey model apiUrl tags
                     additionalInstructions useOllama];
    destruct (decide _) as [Heq|Hne]; try done; try (other_key Heq);
    exfalso; by apply Hne.
Qed.

Lemma onChange_useOllama_read (value : bool) :
  read_settings (settings (onChange_useOllama value p)) = Some (with_useOllama value st).
Proof using Htyped.
  destruct (read_settings_inv _ _ Htyped) as (H1 & H2 & H3 & H4 & H5 & H6).
  unfold onChange_useOllama, saveSettings. cbn [settings].
  apply read_settings_intro; rewrite assoc_set_prop;
    cbn [with_useOllama apiKey model apiUrl tags additionalInstructions useOllama];
    destruct (decide _) as [Heq|Hne]; try done; try (other_key Heq);
    exfalso; by apply Hne.
Qed.

End TabFacts.

(** Loading: with no stored data the settings are the defaults; with a
    stored object, every key it has other than [__proto__] becomes an
    own property with the stored value (a key unknown to the plugin
    too), every key it lacks keeps the default, and a stored
    [__proto__] never becomes a property of the settings. *)
Theorem load_merges_over_defaults (p : PluginState) :
  (data p = VNull -> settings (loadSettings p) = settings_object DEFAULT_SETTINGS)
  /\ (forall props,
        data p = VObject props -> NoDup props.*1 ->
        (forall k,
            k <> lit "__proto__" ->
            (k ∈ props.*1 -> assoc k (settings (loadSettings p)) = assoc k props)
            /\ (k ∉ props.*1 ->
                assoc k (settings (loadSettings p))
                = assoc k (settings_object DEFAULT_SETTINGS)))
        /\ assoc (lit "__proto__") (settings (loadSettings p)) = VUndefined).
Proof.
  split.
  - intros Hnull. unfold loadSettings, Object_assign. simpl.
    by rewrite assign_defaults, Hnull.
  - intros props Hdata Hnd. split.
    + intros k Hk. rewrite (load_lookup p props k Hdata Hnd Hk).
      split; intros Hin; by destruct (decide (k ∈ props.*1)).
    + unfold loadSettings, Object_assign. simpl.
      rewrite assign_defaults, Hdata. unfold assign_from. simpl.
      rewrite assoc_assign_other; [reflexivity|].
      intros Hin. by apply filtered_keys in Hin as [_ Hin].
Qed.

(** Stored data that names the model and the provider only: those two
    are taken, the other four settings are the defaults. *)
Lemma load_merges_over_defaults_sample :
  read_settings (settings (loadSettings {| settings := []; data := partial_data |}))
  = Some {| apiKey := []; model := lit "llama3";
            apiUrl := lit "https://api.openai.com/v1/chat/completions";
            tags := []; additionalInstructions := []; useOllama := true |}.
Proof.
  pose proof (load_merges_over_defaults {| settings := []; data := partial_data |})
    as [_ Hmerge].
  assert (NoDup [lit "model"; lit "useOllama"]) as Hnd.
  { apply NoDup_cons. split; [|apply NoDup_singleton].
    intros Hin%list_elem_of_singleton. vm_compute in Hin. discriminate Hin. }
  destruct (Hmerge _ eq_refl Hnd) as [Hkey _].
  assert (forall k, k ∈ setting_names ->
            (k ∈ [lit "model"; lit "useOllama"] ->
             assoc k (settings (loadSettings {| settings := []; data := partial_data |}))
             = assoc k [(lit "model", VString (lit "llama3"));
                        (lit "useOllama", VBool true)])
            /\ (k ∉ [lit "model"; lit "useOllama"] ->
                assoc k (settings (loadSettings {| settings := []; data := partial_data |}))
                = assoc k (settings_object DEFAULT_SETTINGS))) as Hname
    by (intros k Hk; by apply Hkey, setting_name_plain).
  apply read_settings_intro; cbn [apiKey model apiUrl tags additionalInstructions useOllama].
  - refine (proj2 (Hname (lit "apiKey") _) _); [present_key | absent_key].
  - refine (proj1 (Hname (lit "model") _) _); [present_key | present_key].
  - refine (proj2 (Hname (lit "apiUrl") _) _); [present_key | absent_key].
  - refine (proj2 (Hname (lit "tags") _) _); [present_key | absent_key].
  - refine (proj2 (Hname (lit "additionalInstructions") _) _);
      [present_key | absent_key].
  - refine (proj1 (Hname (lit "useOllama") _) _); [present_key | present_key].
Defined.

(** Stored data with a [__proto__] key beside the tags: the tags are
    taken, and the settings get no property of that name. *)
Example stored_proto_key_passed_over :
  let loaded :=
    settings (loadSettings
      {| settings := [];
         data := VObject [(lit "__proto__", VString (lit "x"));
                          (lit "tags", VString (lit "#a"))] |}) in
  assoc (lit "__proto__") loaded = VUndefined
  /\ read_settings loaded = Some (with_text Tags (lit "#a") DEFAULT_SETTINGS).
Proof. split; reflexivity. Qed.

(** Saving and loading: what [saveSettings] stores is the settings
    object itself, and loading it back gives settings that read as the
    same record. *)
Theorem settings_survive_save_and_load (p : PluginState) (st : RefinerSettings) :
  read_settings (settings p) = Some st ->
  NoDup (settings p).*1 ->
  data (saveSettings p) = VObject (settings p)
  /\ read_settings (settings (loadSettings (saveSettings p))) = Some st.
Proof.
  intros Hread Hnd. split; [done|]. destruct p as [o d]. by apply load_saved.
Qed.

Lemma settings_survive_save_and_load_sample :
  read_settings (settings (loadSettings (saveSettings sample_state))) = Some sample_settings.
Proof.
  refine (proj2 (settings_survive_save_and_load sample_state sample_settings eq_refl _)).
  repeat (apply NoDup_cons; split; [absent_key|]). apply NoDup_nil_2.
Defined.

(** The settings tab: the handler of a text setting stores the input
    trimmed under that setting and leaves the other five as they
    were, the toggle stores its value, and either saves at once, so
    that the stored data load back to the settings in memory. *)
Theorem tab_change_stores_trimmed
    (p : PluginState) (st : RefinerSettings) (f : text_setting) (value : JsString.t)
    (b : bool) :
  read_settings (settings p) = Some st ->
  NoDup (settings p).*1 ->
  read_settings (settings (onChange_text f value p)) = Some (with_text f (trim value) st)
  /\ read_settings (settings (loadSettings (onChange_text f value p)))
     = Some (with_text f (trim value) st)
  /\ read_settings (settings (onChange_useOllama b p)) = Some (with_useOllama b st)
  /\ read_settings (settings (loadSettings (onChange_useOllama b p)))
     = Some (with_useOllama b st).
Proof.
  intros Hread Hnd.
  pose proof (onChange_text_read p st Hread f value) as Htext.
  pose proof (onChange_useOllama_read p st Hread b) as Htoggle.
  split; [exact Htext|]. split; [|split; [exact Htoggle|]].
  - unfold onChange_text in *. cbn [settings saveSettings] in Htext.
    apply load_saved; [exact Htext | by apply set_prop_NoDup].
  - unfold onChange_useOllama in *. cbn [settings saveSettings] in Htoggle.
    apply load_saved; [exact Htoggle | by apply set_prop_NoDup].
Qed.

Lemma tab_change_stores_trimmed_sample :
  read_settings (settings (onChange_text Tags (lit "  #idea ") sample_state))
  = Some (with_text Tags (lit "#idea") sample_settings)
  /\ read_settings (settings (onChange_useOllama true sample_state)) = Some ollama_settings.
Proof.
  assert (NoDup (settings sample_state).*1) as Hnd.
  { repeat (apply NoDup_cons; split; [absent_key|]). apply NoDup_nil_2. }
  destruct (tab_change_stores_trimmed sample_state sample_settings Tags (lit "  #idea ")
              true eq_refl Hnd) as (Htext & _ & Htoggle & _).
  split; [exact Htext | exact Htoggle].
Defined.

(** From the settings tab to the prompt: tags typed into the tab give
    the tag clause with exactly the trimmed input, or no clause when
    the input is blank; extra instructions typed into the tab give
    their clause with the trimmed input, and none when the input is
    blank. White space alone never reaches the prompt this way. *)
Theorem tab_input_reaches_prompt_trimmed
    (p : PluginState) (st : RefinerSettings) (value body : JsString.t) :
  read_settings (settings p) = Some st ->
  (exists st',
      read_settings (settings (onChange_text Tags value p)) = Some st'
      /\ prompt st' body
         = prompt_layout (if nonempty (trim value) then tag_clause_of (trim value) else [])
             (extra_clause st) body)
  /\ (exists st',
      read_settings (settings (onChange_text AdditionalInstructions value p)) = Some st'
      /\ prompt st' body
         = prompt_layout (tag_clause st)
             (if nonempty (trim value) then extra_clause_of (trim value) else [])
             body).
Proof.
  intros Hread. split.
  - exists (with_text Tags (trim value) st). split; [by apply onChange_text_read|].
    rewrite prompt_eq_layout. unfold tag_clause. cbn [with_text tags].
    by rewrite trim_idem.
  - exists (with_text AdditionalInstructions (trim value) st).
    split; [by apply onChange_text_read|].
    by rewrite prompt_eq_layout.
Qed.

Lemma tab_input_reaches_prompt_trimmed_sample :
  exists st',
    read_settings (settings (onChange_text AdditionalInstructions (lit "  ") sample_state))
    = Some st'
    /\ prompt st' sample_body = prompt_layout (tag_clause_of (lit "#todo")) [] sample_body.
Proof.
  exact (proj2 (tab_input_reaches_prompt_trimmed sample_state sample_settings
                  (lit "  ") sample_body eq_refl)).
Defined.

(** ** More on the completion client *)

(** The trace of one completion call. *)
Lemma complete_trace (env : Env) (st : RefinerSettings) (p : JsString.t) (w : World) :
  exists r,
    (complete env st p w).2 = Return r
    /\ network (complete env st p w).1 = network w ++ [request_of st p]
    /\ quiet w (complete env st p w).1
    /\ ((truthy r = true /\ console (complete env st p w).1 = console w)
        \/ (r = VNull
            /\ (console (complete env st p w).1 = console w
                \/ exists e,
                     console (complete env st p w).1
                     = console w ++ [(client_label st, e)]))).
Proof.
  assert (forall e, complete env st p w
            = (add_console (client_label st) e (send (request_of st p) w), Return VNull) ->
          exists r,
            (complete env st p w).2 = Return r
            /\ network (complete env st p w).1 = network w ++ [request_of st p]
            /\ quiet w (complete env st p w).1
            /\ ((truthy r = true /\ console (complete env st p w).1 = console w)
                \/ (r = VNull
                    /\ (console (complete env st p w).1 = console w
                        \/ exists e,
                             console (complete env st p w).1
                             = console w ++ [(client_label st, e)])))) as Hlogged.
  { intros e ->. exists VNull. simpl.
    repeat split; [apply send_network | right; split; [done | right; by exists e]]. }
  destruct (fetch_io env) as [res|e] eqn:Hf;
    [| by eapply Hlogged, complete_transport].
  destruct (ok res) eqn:Hok.
  - destruct (json res) as [v|e] eqn:Hj; [| by eapply Hlogged, complete_malformed].
    destruct (nullish v) eqn:Hn.
    + destruct (complete_null_body env st p w res v Hf Hok Hj Hn) as [e He].
      by eapply Hlogged.
    + rewrite (complete_json env st p w res v Hf Hok Hj Hn). simpl.
      exists (or (text_field st v) VNull).
      repeat split; [apply send_network|].
      destruct (or_null_cases (text_field st v)) as [[Ht ->] | [_ ->]]; auto.
  - destruct (text res) as [b|e] eqn:Ht.
    + by eapply Hlogged, complete_status.
    + by eapply Hlogged, complete_status_unread.
Qed.

(** Each completion call sends exactly one request, whatever comes
    back, and returns: a truthy value with nothing logged, or [null]
    with at most one console entry under the label of the shape. It
    touches neither the vault nor any modal or notice. *)
Theorem completion_one_request (env : Env) (st : RefinerSettings) (p : JsString.t) (w : World) :
  exists r,
    (complete env st p w).2 = Return r
    /\ network (complete env st p w).1 = network w ++ [request_of st p]
    /\ quiet w (complete env st p w).1
    /\ ((truthy r = true /\ console (complete env st p w).1 = console w)
        \/ (r = VNull
            /\ (console (complete env st p w).1 = console w
                \/ exists e,
                     console (complete env st p w).1
                     = console w ++ [(client_label st, e)]))).
Proof. apply complete_trace. Qed.

(** A 2xx body in the standard shape that lacks any link of
    [choices[0].message.content], or ends in a falsy content, gives
    [null] and logs nothing; only the body [null] itself makes the
    member access throw, which the client logs: no other JSON body
    adds a console entry. *)
Theorem standard_shape_partial_bodies
    (env : Env) (st : RefinerSettings) (p : JsString.t) (w : World)
    (res : Response) (v : value) :
  useOllama st = false ->
  fetch_io env = Return res -> 200 <= status res <= 299 -> json res = Return v ->
  (forall props,
      v = VObject props ->
      assoc (lit "choices") props = VUndefined
      \/ assoc (lit "choices") props = VNull
      \/ assoc (lit "choices") props = VArray []
      \/ (exists first rest,
            assoc (lit "choices") props = VArray (first :: rest)
            /\ (nullish first = true
                \/ nullish (get first (Name (lit "message"))) = true
                \/ truthy (get (get first (Name (lit "message"))) (Name (lit "content")))
                   = false)) ->
      complete env st p w = (send (standard_request st p) w, Return VNull))
  /\ (v = VNull ->
      exists e,
        complete env st p w
        = (add_console (lit "Refiner Plugin Error:") e (send (standard_request st p) w),
           Return VNull))
  /\ (nullish v = false -> console (complete env st p w).1 = console w).
Proof.
  intros Hshape Hf Hok Hj. apply ok_2xx in Hok.
  assert (request_of st p = standard_request st p) as Hreq
    by (unfold request_of; by rewrite Hshape).
  assert (client_label st = lit "Refiner Plugin Error:") as Hlabel
    by (unfold client_label; by rewrite Hshape).
  split.
  - intros props -> Hcut.
    rewrite (complete_json env st p w res _ Hf Hok Hj eq_refl), Hreq.
    do 2 f_equal. unfold text_field. rewrite Hshape.
    unfold first_choice_content. cbn [get key_text].
    destruct Hcut as [-> | [-> | [-> | (first & rest & -> & Hcut)]]]; try reflexivity.
    unfold opt_member, or. cbn [get nth nullish].
    destruct (nullish first) eqn:Hfirst; [reflexivity|].
    destruct (nullish (get first (Name (lit "message")))) eqn:Hmessage; [reflexivity|].
    destruct Hcut as [Hn | [Hn | Ht]]; [discriminate Hn | discriminate Hn |].
    by rewrite Ht.
  - split.
    + intros ->.
      destruct (complete_null_body env st p w res VNull Hf Hok Hj eq_refl) as [e He].
      exists e. by rewrite He, Hreq, Hlabel.
    + intros Hn. by rewrite (complete_json env st p w res v Hf Hok Hj Hn).
Qed.

Lemma standard_shape_partial_bodies_sample :
  complete (env_of (Return chat_no_choices)) sample_settings (lit "hello") sample_world
  = (send (standard_request sample_settings (lit "hello")) sample_world, Return VNull).
Proof.
  refine (proj1 (standard_shape_partial_bodies (env_of (Return chat_no_choices))
                   sample_settings (lit "hello") sample_world chat_no_choices _
                   eq_refl eq_refl ltac:(simpl; lia) eq_refl) [] eq_refl _).
  by left.
Defined.

(** ** More on the refine operation *)

Section RefineTrace.

Variable env : Env.
Variable st : RefinerSettings.
Variable file : TFile.
Variable w : World.

Lemma complete_frame (p : JsString.t) (w0 w1 : World) (r : value) :
  complete env st p w0 = (w1, Return r) ->
  quiet w0 w1 /\ network w1 = network w0 ++ [request_of st p]
  /\ (r = VNull \/ truthy r = true).
Proof.
  intros Hc.
  destruct (complete_total env st p w0) as (w' & r' & Hrun & Hq & Hnet & Hr).
  rewrite Hrun in Hc. injection Hc as <- <-.
  repeat split; try apply Hq; [exact Hnet|].
  destruct Hr as [[-> _] | [Ht _]]; auto.
Qed.


(** The request of a run whose note reads well. *)
Lemma refineNote_network_read (original : JsString.t) :
  read_io env = None -> vault w !! path file = Some original ->
  network (refineNote env st file w).1
  = network w ++ [request_of st (prompt st original)].
Proof.
  intros Hio Hdoc. pose proof (read_running env file w original Hio Hdoc) as Hread.
  destruct (refineNote_run env st file w) as (w1 & Hrun & ->). simpl.
  destruct Hrun as [e Hr | o w1 r Hr Hc _ | o w1 r e Hr Hc _ _ | o w1 r text Hr Hc _ _ _];
    rewrite Hr in Hread; try discriminate Hread; injection Hread as ->;
    destruct (complete_frame _ _ _ _ Hc) as (_ & Hnet & _); simpl; by rewrite Hnet.
Qed.

Lemma refineNote_network_unread :
  read_io env <> None \/ vault w !! path file = None ->
  network (refineNote env st file w).1 = network w.
Proof.
  intros Hfault. destruct (read_fault_running env file w Hfault) as [e Hread].
  by rewrite (refineNote_of_run env st file w _ (run_unreadable env st file _ e Hread)).
Qed.

End RefineTrace.

(** A refine sends no request when the note cannot be read, and
    otherwise exactly one, whose message is the prompt built from the
    body just read: there is no second attempt on any failure. *)
Theorem refine_sends_at_most_once
    (env : Env) (st : RefinerSettings) (file : TFile) (w : World) :
  (read_io env <> None \/ vault w !! path file = None ->
   network (refineNote env st file w).1 = network w)
  /\ (forall original,
        read_io env = None -> vault w !! path file = Some original ->
        network (refineNote env st file w).1
        = network w ++ [request_of st (prompt st original)]).
Proof.
  split; [apply refineNote_network_unread | apply refineNote_network_read].
Qed.

Lemma refine_sends_at_most_once_sample :
  network (refineNote (env_of (Throw (TypeError (lit "Failed to fetch")))) sample_settings
             sample_file sample_world).1
  = [standard_request sample_settings (prompt sample_settings sample_body)].
Proof.
  exact (proj2 (refine_sends_at_most_once (env_of (Throw (TypeError (lit "Failed to fetch"))))
                  sample_settings sample_file sample_world) sample_body eq_refl eq_refl).
Defined.

Lemma notices_differ (file : TFile) :
  notice_refined file <> notice_failed /\ notice_refined file <> notice_error
  /\ notice_failed <> notice_error.
Proof. repeat split; intros H; vm_compute in H; discriminate H. Qed.

(** The notice tells what happened to the note. After the success
    notice the body is what one write put there following a truthy
    completion (the returned text itself when it is a string); after
    either failure notice the vault is as it was before, and the
    error notice comes with a console entry labelled [Refiner Error:]. *)
Theorem notice_tells_outcome
    (env : Env) (st : RefinerSettings) (file : TFile) (w : World) (msg : JsString.t) :
  notices (refineNote env st file w).1 = notices w ++ [msg] ->
  (msg = notice_refined file ->
   exists original r text,
     (complete env st (prompt st original) (running w)).2 = Return r
     /\ truthy r = true
     /\ (forall s, r = VString s -> text = s)
     /\ vault (refineNote env st file w).1 = <[path file := text]> (vault w))
  /\ (msg = notice_failed ->
      vault (refineNote env st file w).1 = vault w
      /\ exists original,
           (complete env st (prompt st original) (running w)).2 = Return VNull)
  /\ (msg = notice_error ->
      vault (refineNote env st file w).1 = vault w
      /\ exists entries e,
           console (refineNote env st file w).1
           = console w ++ entries ++ [(lit "Refiner Error:", e)]).
Proof.
  intros Hmsg. destruct (notices_differ file) as (Hrf & Hre & Hfe).
  destruct (refineNote_run env st file w) as (w1 & Hrun & Heq).
  rewrite Heq in *. simpl in *.
  destruct Hrun as [e Hr | o w1 r Hr Hc Ht | o w1 r e Hr Hc Ht Hm
                    | o w1 r text Hr Hc Ht Hm Htext]; simpl in *;
    try (destruct (complete_frame env st _ _ _ _ Hc) as ((Hv & _ & Hn) & _ & Hres);
         rewrite Hn in Hmsg; simpl in Hmsg);
    apply app_inv_head in Hmsg; injection Hmsg as <-.
  - split; [intros H; by destruct Hre|]. split; [intros H; by destruct Hfe|].
    intros _. split; [done|]. by exists [], e.
  - split; [intros H; by destruct Hrf|]. split; [|intros H; by destruct Hfe].
    intros _. split; [done|]. exists o. rewrite Hc. simpl.
    destruct Hres as [-> | Ht']; [done | congruence].
  - split; [intros H; by destruct Hre|]. split; [intros H; by destruct Hfe|].
    intros _. split; [done|].
    destruct (complete_total env st (prompt st o) (running w))
      as (w' & r' & Hrun & _ & _ & Hlog).
    rewrite Hrun in Hc. injection Hc as <- <-.
    destruct Hlog as [[_ [entries Hlog]] | [_ Hlog]]; rewrite Hlog.
    + exists entries, e. by rewrite <- app_assoc.
    + by exists [], e.
  - split; [|split; [intros H; symmetry in H; by destruct Hrf
                    | intros H; symmetry in H; by destruct Hre]].
    intros _. exists o, r, text. rewrite Hc. simpl. by rewrite Hv.
Qed.

Lemma notice_tells_outcome_sample :
  vault (refineNote (env_of (Return server_error_500)) sample_settings sample_file
           sample_world).1
  = vault sample_world.
Proof.
  exact (proj1 (proj1 (proj2 (notice_tells_outcome (env_of (Return server_error_500))
                                sample_settings sample_file sample_world notice_failed
                                eq_refl)) eq_refl)).
Defined.



(** ** The earlier revision *)

(** Data saved by the earlier revision, which has no provider switch,
    load in the later one as the same five settings with the standard
    provider, so the request keeps the shape it had. *)
Theorem earlier_data_load_as_standard
    (st : V1.RefinerSettings) (current : list (JsString.t * value)) (p : JsString.t) :
  read_settings
    (settings (loadSettings {| settings := current;
                               data := VObject (V1.settings_object st) |}))
  = Some (upgrade st)
  /\ request_of (upgrade st) p = standard_request (upgrade st) p.
Proof. split; reflexivity. Qed.

(** The prompt of the earlier revision has the same build: base
    rules, tag clause if any, extra instructions if any under their
    marker, the document marker, and the body last and unchanged. *)
Theorem earlier_prompt_order_and_body_suffix (st : V1.RefinerSettings) (body : JsString.t) :
  exists tag_part extra_part,
    V1.prompt st body
    = V1.baseInstructions ++ nl ++ tag_part ++ nl ++ extra_part ++ nl
      ++ V1.note_marker ++ body
    /\ (tag_part = (if nonempty (trim (V1.tags st)) then tag_clause_of (V1.tags st) else []))
    /\ (extra_part = (if nonempty (V1.additionalInstructions st)
                      then V1.extra_marker ++ V1.additionalInstructions st else []))
    /\ body `suffix_of` V1.prompt st body.
Proof.
  assert (nonempty (V1.tagInstruction st) = nonempty (trim (V1.tags st))) as Htag.
  { unfold V1.tagInstruction. destruct (nonempty (trim (V1.tags st))); [|done].
    by apply nonempty_app_l. }
  assert (V1.prompt st body
          = V1.baseInstructions ++ nl
            ++ (if nonempty (trim (V1.tags st)) then tag_clause_of (V1.tags st) else [])
            ++ nl
            ++ (if nonempty (V1.additionalInstructions st)
                then V1.extra_marker ++ V1.additionalInstructions st else [])
            ++ nl ++ V1.note_marker ++ body) as Heq.
  { unfold V1.prompt. rewrite Htag.
    unfold V1.tagInstruction, tag_clause_of, V1.extra_marker, V1.note_marker.
    destruct (nonempty (trim (V1.tags st))), (nonempty (V1.additionalInstructions st));
      by rewrite <- ?app_assoc. }
  do 2 eexists. split; [exact Heq|]. split; [done|]. split; [done|].
  rewrite Heq. do 7 apply suffix_app_r. done.
Qed.

(** ** More on what a refine logs and on ill-shaped stored data *)

(** A refine writes at most one console entry, under the label of the
    completion call or under [Refiner Error:], and none at all when it
    ends with the success notice. *)
Theorem refine_logs_at_most_once
    (env : Env) (st : RefinerSettings) (file : TFile) (w : World) :
  (console (refineNote env st file w).1 = console w
   \/ exists label e,
        console (refineNote env st file w).1 = console w ++ [(label, e)]
        /\ (label = client_label st \/ label = lit "Refiner Error:"))
  /\ (notices (refineNote env st file w).1 = notices w ++ [notice_refined file] ->
      console (refineNote env st file w).1 = console w).
Proof.
  destruct (notices_differ file) as (Hrf & Hre & _).
  destruct (refineNote_run env st file w) as (w1 & Hrun & ->). simpl.
  destruct Hrun as [e Hr | o w1 r Hr Hc Ht | o w1 r e Hr Hc Ht Hm
                    | o w1 r text Hr Hc Ht Hm Htext]; simpl.
  - split; [right; exists (lit "Refiner Error:"), e; auto|].
    intros H. apply app_inv_head in H. injection H as H. by destruct Hre.
  - destruct (complete_trace env st (prompt st o) (running w))
      as (r' & Hres & _ & (_ & _ & Hn) & Hlog).
    rewrite Hc in Hres, Hn, Hlog. simpl in *. injection Hres as <-.
    split.
    + destruct Hlog as [[Ht' _] | [_ [Hlog | [e Hlog]]]]; [congruence | by left |].
      right. exists (client_label st), e. auto.
    + rewrite Hn. intros H. apply app_inv_head in H. injection H as H. by destruct Hrf.
  - destruct (complete_trace env st (prompt st o) (running w))
      as (r' & Hres & _ & (_ & _ & Hn) & Hlog).
    rewrite Hc in Hres, Hn, Hlog. simpl in *. injection Hres as <-.
    destruct Hlog as [[_ Hlog] | [-> _]]; [|discriminate Ht]. rewrite Hlog.
    split; [right; exists (lit "Refiner Error:"), e; auto|].
    rewrite Hn. intros H. apply app_inv_head in H. injection H as H. by destruct Hre.
  - destruct (complete_trace env st (prompt st o) (running w))
      as (r' & Hres & _ & _ & Hlog).
    rewrite Hc in Hres, Hlog. simpl in *. injection Hres as <-.
    destruct Hlog as [[_ Hlog] | [-> _]]; [|discriminate Ht]. rewrite Hlog. auto.
Qed.

Section ForeignData.

Implicit Types o props : list (JsString.t * value).

(** The decimal text of an index starts with a digit. *)
Lemma of_N_digit (n : N) c rest : of_N n = c :: rest -> 48 <= c <= 57.
Proof.
  unfold of_N. destruct (N.to_uint n); simpl; intros [= <- _]; lia.
Qed.

Lemma setting_name_letter k : k ∈ setting_names -> exists c rest, k = c :: rest /\ 97 <= c.
Proof.
  unfold setting_names. intros Hk.
  repeat (apply elem_of_cons in Hk as [->|Hk];
          [vm_compute; do 2 eexists; split; [reflexivity | discriminate]|]).
  by apply elem_of_nil in Hk.
Qed.

Lemma index_keys_not_settings {A} (f : A -> value) (l : list A) k :
  k ∈ setting_names -> k ∉ (imap (fun i x => (of_N (N.of_nat i), f x)) l).*1.
Proof.
  intros Hk Hin. destruct (setting_name_letter k Hk) as (c & rest & -> & Hc).
  apply list_elem_of_fmap in Hin as ([k' v'] & Hk' & Hin). simpl in Hk'. subst k'.
  apply elem_of_lookup_imap in Hin as (i & x & [= Hkey _] & _).
  symmetry in Hkey. apply of_N_digit in Hkey. lia.
Qed.

End ForeignData.

(** Stored data that is not an object (a number, a boolean, a string,
    an array, or nothing at all) leaves every setting at its default. *)
Theorem load_ignores_non_object_data (p : PluginState) :
  match data p with
  | VObject _ => True
  | _ => read_settings (settings (loadSettings p)) = Some DEFAULT_SETTINGS
  end.
Proof.
  assert (forall props,
            (forall k, k ∈ setting_names -> k ∉ props.*1) ->
            read_settings
              (fold_left (fun o kv => set_prop kv.1 kv.2 o) props
                 (settings_object DEFAULT_SETTINGS))
            = Some DEFAULT_SETTINGS) as Hkeep.
  { intros props Hother.
    rewrite <- (settings_object_read DEFAULT_SETTINGS).
    apply read_settings_ext. intros k Hk. by apply assoc_assign_other, Hother. }
  unfold loadSettings, Object_assign. simpl. rewrite assign_defaults.
  destruct (data p) as [| | b | x | s | items | props]; try exact I;
    try reflexivity; unfold assign_from, own_props; apply Hkeep; intros k Hk.
  - intros [Hin _]%filtered_keys.
    by apply (index_keys_not_settings (fun c => VString [c]) s k).
  - intros [Hin _]%filtered_keys.
    by apply (index_keys_not_settings (fun x => x) items k).
Qed.

(** A refine that succeeds leaves the console as it was. *)
Lemma refine_logs_at_most_once_sample :
  console (refineNote (env_of (Return chat_X)) sample_settings sample_file sample_world).1
  = console sample_world.
Proof.
  exact (proj2 (refine_logs_at_most_once (env_of (Return chat_X)) sample_settings
                  sample_file sample_world) eq_refl).
Defined.
